(** * Memory-enhanced conversational agent: session memory manager

    A shallow embedding of the memory cell of
    [all_agents_tutorials/memory_enhanced_conversational_agent.ipynb]
    (the two module-level dictionaries [chat_store] and [long_term_memory],
    the functions [get_chat_history], [update_long_term_memory],
    [get_long_term_memory] and [chat]) together with the properties of the
    session memory manager that the specification states about them.

    Modelling conventions.
    - A Python [str] is a [string]; one [ascii] stands for one character, so
      [len(s)] is [String.length s].
    - A Python [dict] keyed by [str] is a [gmap string _].
    - [ChatMessageHistory] objects are mutable and are handed out by
      reference.  They live in an object store ([objects]); a reference is
      the index of the object in that store, and allocation appends.
    - The lists held by [long_term_memory] never escape the three functions
      (only the joined string does), so they are kept by value.
    - Statements of the functions run in a state-and-exception monad [M]:
      [d[k]] raises [KeyError] on a missing key exactly as in Python. *)

From Stdlib Require Import ZArith.
From stdpp Require Import gmap strings list fin_maps.

Open Scope string_scope.
Open Scope list_scope.
Open Scope nat_scope.

(** ** Python values *)

(** [langchain]'s messages: [message.type] is ["human"] or ["ai"]. *)
Record BaseMessage := mkMessage { type : string; content : string }.

Definition HumanMessage (text : string) : BaseMessage := mkMessage "human" text.
Definition AIMessage (text : string) : BaseMessage := mkMessage "ai" text.

(** [ChatMessageHistory()] is an object with one field, [messages],
    initially the empty list. *)
Record ChatMessageHistory := mkHistory { messages : list BaseMessage }.

(** A reference to a [ChatMessageHistory] object. *)
Abbreviation ref := nat (only parsing).

(** The interpreter state the notebook's functions read and write. *)
Record state := mkState {
  chat_store : gmap string ref;
  long_term_memory : gmap string (list string);
  objects : list ChatMessageHistory
}.

(** The state right after the cell [chat_store = {}; long_term_memory = {}]. *)
Definition initial_state : state := mkState ∅ ∅ [].

Inductive exn :=
| KeyError (key : string)
| ChainError (msg : string)      (* whatever the external model call raises *)
| InvalidReference (r : ref).    (* no Python counterpart: a dangling index *)

Inductive outcome (A : Type) :=
| Returned (a : A)
| Raised (e : exn).
Arguments Returned {A} a.
Arguments Raised {A} e.

(** ** The monad of statements *)

Definition M (A : Type) : Type := state → outcome A * state.

Definition ret {A} (a : A) : M A := λ st, (Returned a, st).

Definition bind {A B} (m : M A) (k : A → M B) : M B :=
  λ st, match m st with
        | (Returned a, st') => k a st'
        | (Raised e, st') => (Raised e, st')
        end.

Definition raise {A} (e : exn) : M A := λ st, (Raised e, st).

Declare Scope py_scope.
Delimit Scope py_scope with py.
Notation "x <- m ; k" := (bind m (λ x, k))
  (at level 100, m at next level, right associativity) : py_scope.
Notation "m ;; k" := (bind m (λ _, k))
  (at level 100, right associativity) : py_scope.
Open Scope py_scope.

(** [if c: body] with no [else]. *)
Definition when (c : bool) (body : M ()) : M () := if c then body else ret ().

(** ** Primitive statements on the two dictionaries and the object store *)

(** [key in chat_store] *)
Definition chat_store_contains (key : string) : M bool :=
  λ st, (Returned (bool_decide (is_Some (chat_store st !! key))), st).

(** [chat_store[key] = r] *)
Definition chat_store_setitem (key : string) (r : ref) : M () :=
  λ st, (Returned (),
         mkState (<[key := r]> (chat_store st)) (long_term_memory st) (objects st)).

(** [chat_store[key]] *)
Definition chat_store_getitem (key : string) : M ref :=
  λ st, match chat_store st !! key with
        | Some r => (Returned r, st)
        | None => (Raised (KeyError key), st)
        end.

(** [ChatMessageHistory()]: a fresh object, returned by reference. *)
Definition new_ChatMessageHistory : M ref :=
  λ st, (Returned (length (objects st)),
         mkState (chat_store st) (long_term_memory st)
                 (objects st ++ [mkHistory []])).

(** [history.messages] *)
Definition get_messages (r : ref) : M (list BaseMessage) :=
  λ st, match objects st !! r with
        | Some h => (Returned (messages h), st)
        | None => (Raised (InvalidReference r), st)
        end.

(** [history.add_messages(ms)]: in-place extension of the object. *)
Definition add_messages (r : ref) (ms : list BaseMessage) : M () :=
  λ st, match objects st !! r with
        | Some h => (Returned (),
                     mkState (chat_store st) (long_term_memory st)
                             (<[r := mkHistory (messages h ++ ms)]> (objects st)))
        | None => (Raised (InvalidReference r), st)
        end.

(** [key in long_term_memory] *)
Definition long_term_memory_contains (key : string) : M bool :=
  λ st, (Returned (bool_decide (is_Some (long_term_memory st !! key))), st).

(** [long_term_memory[key] = l] *)
Definition long_term_memory_setitem (key : string) (l : list string) : M () :=
  λ st, (Returned (),
         mkState (chat_store st) (<[key := l]> (long_term_memory st)) (objects st)).

(** [long_term_memory[key]] *)
Definition long_term_memory_getitem (key : string) : M (list string) :=
  λ st, match long_term_memory st !! key with
        | Some l => (Returned l, st)
        | None => (Raised (KeyError key), st)
        end.

(** [long_term_memory.get(key, dflt)] *)
Definition long_term_memory_get (key : string) (dflt : list string) : M (list string) :=
  λ st, (Returned (default dflt (long_term_memory st !! key)), st).

(** [long_term_memory[key].append(x)] *)
Definition long_term_memory_append (key : string) (x : string) : M () :=
  l <- long_term_memory_getitem key;
  long_term_memory_setitem key (l ++ [x]).

(** ** Python built-ins *)

(** [l[start:]], for a start index of either sign. *)
Definition slice_from {A} (start : Z) (l : list A) : list A :=
  let n := Z.of_nat (length l) in
  let s := if (start <? 0)%Z then Z.max 0 (n + start) else Z.min start n in
  drop (Z.to_nat s) l.

(** [sep.join(l)] *)
Fixpoint join (sep : string) (l : list string) : string :=
  match l with
  | [] => ""
  | x :: rest =>
      match rest with
      | [] => x
      | _ :: _ => x +:+ sep +:+ join sep rest
      end
  end.

(** ** The notebook's functions *)

Definition get_chat_history (session_id : string) : M ref :=
  present <- chat_store_contains session_id;
  when (negb present)
    (h <- new_ChatMessageHistory;
     chat_store_setitem session_id h);;
  chat_store_getitem session_id.

Definition update_long_term_memory (session_id input output : string) : M () :=
  present <- long_term_memory_contains session_id;
  when (negb present)
    (long_term_memory_setitem session_id []);;
  when (20 <? String.length input)
    (long_term_memory_append session_id ("User said: " +:+ input));;
  l <- long_term_memory_getitem session_id;
  when (5 <? length l)
    (l' <- long_term_memory_getitem session_id;
     long_term_memory_setitem session_id (slice_from (-5) l')).

Definition get_long_term_memory (session_id : string) : M string :=
  l <- long_term_memory_get session_id [];
  ret (join ". " l).

(** What the chain [prompt | llm] is invoked with: the current input, the
    rendered long-term memory and the session's message history. *)
Record chain_input := mkChainInput {
  ci_input : string;
  ci_long_term_memory : string;
  ci_history : list BaseMessage
}.

(** The external model: it answers with a text or raises. *)
Definition chain := chain_input → outcome string.

(** [chain_with_history.invoke(...)], i.e. langchain's
    [RunnableWithMessageHistory] around the chain: the session's history is
    obtained with [get_chat_history], its messages are passed to the chain,
    and once the chain has answered the human and the AI message are added
    to the history (as the notebook's recorded conversation history shows). *)
Definition chain_with_history_invoke (model : chain)
    (input long_term_mem session_id : string) : M string :=
  h <- get_chat_history session_id;
  history <- get_messages h;
  match model (mkChainInput input long_term_mem history) with
  | Raised e => raise e
  | Returned response =>
      add_messages h [HumanMessage input; AIMessage response];;
      ret response
  end.

Definition chat (model : chain) (input_text session_id : string) : M string :=
  long_term_mem <- get_long_term_memory session_id;
  response <- chain_with_history_invoke model input_text long_term_mem session_id;
  update_long_term_memory session_id input_text response;;
  ret response.

(** ** Sequences of public operations *)

(** One call of a public function, with its arguments.  A [Chat] call
    carries the behaviour of the external model during that call, so a
    sequence of operations ranges over every way the model may answer. *)
Inductive op :=
| Get_chat_history (session_id : string)
| Update_long_term_memory (session_id input output : string)
| Get_long_term_memory (session_id : string)
| Chat (model : chain) (input_text session_id : string).

Definition op_session (o : op) : string :=
  match o with
  | Get_chat_history s => s
  | Update_long_term_memory s _ _ => s
  | Get_long_term_memory s => s
  | Chat _ _ s => s
  end.

(** The state a call leaves behind, whether it returned or raised. *)
Definition step (o : op) (st : state) : state :=
  match o with
  | Get_chat_history s => snd (get_chat_history s st)
  | Update_long_term_memory s i out => snd (update_long_term_memory s i out st)
  | Get_long_term_memory s => snd (get_long_term_memory s st)
  | Chat model i s => snd (chat model i s st)
  end.

Fixpoint run (ops : list op) (st : state) : state :=
  match ops with
  | [] => st
  | o :: ops' => run ops' (step o st)
  end.

(** ** Observations on a state *)

(** The facts held for a session; a session without an entry holds none. *)
Definition facts (st : state) (session_id : string) : list string :=
  default [] (long_term_memory st !! session_id).

(** The messages of a session's history object, when the session exists. *)
Definition short_term (st : state) (session_id : string)
  : option (list BaseMessage) :=
  match chat_store st !! session_id with
  | Some r => messages <$> objects st !! r
  | None => None
  end.

(** Everything the functions can tell about one session. *)
Definition view (st : state) (session_id : string)
  : option (list string) * option (list BaseMessage) :=
  (long_term_memory st !! session_id, short_term st session_id).

(** The string [get_long_term_memory] returns. *)
Definition rendered (st : state) (session_id : string) : outcome string :=
  fst (get_long_term_memory session_id st).

(** The new fact list of a session after [update_long_term_memory], as the
    three [if] statements compute it from the old one. *)
Definition retained (l : list string) (input : string) : list string :=
  let l1 := if (20 <? String.length input)
            then l ++ ["User said: " +:+ input] else l in
  if (5 <? length l1) then slice_from (-5) l1 else l1.

(** The eviction loop in the words of the specification: while the size
    exceeds the capacity, remove the element at index 0. *)
Fixpoint evict_oldest {A} (capacity : nat) (l : list A) : list A :=
  match l with
  | [] => []
  | _ :: rest => if (capacity <? length l) then evict_oldest capacity rest else l
  end.

(** The facts a sequence of inputs contributes, in order: the accepted
    inputs, each behind the prefix. *)
Fixpoint new_facts (inputs : list string) : list string :=
  match inputs with
  | [] => []
  | input :: rest =>
      if 20 <? String.length input
      then ("User said: " +:+ input) :: new_facts rest
      else new_facts rest
  end.

(** Calls of [update_long_term_memory] for one session, one per
    (input, output) pair. *)
Definition updates (session_id : string) (ios : list (string * string))
  : list op :=
  map (λ io, Update_long_term_memory session_id io.1 io.2) ios.

(** ** State invariants *)

(** No session holds more facts than the capacity. *)
Definition within_capacity (st : state) : Prop :=
  ∀ sid l, long_term_memory st !! sid = Some l → length l ≤ 5.

(** Every stored fact is an accepted input behind the prefix. *)
Definition only_accepted_facts (st : state) : Prop :=
  ∀ sid l f, long_term_memory st !! sid = Some l → f ∈ l →
    ∃ input, f = "User said: " +:+ input ∧ 20 < String.length input.

(** Every session refers to an allocated history object of its own. *)
Definition well_formed (st : state) : Prop :=
  (∀ sid r, chat_store st !! sid = Some r → r < length (objects st)) ∧
  (∀ s1 s2 r, chat_store st !! s1 = Some r → chat_store st !! s2 = Some r →
              s1 = s2).

(** The reference [get_chat_history] returns for a session: the one in
    [chat_store], or the next free one. *)
Definition session_ref (st : state) (sid : string) : ref :=
  default (length (objects st)) (chat_store st !! sid).

(** The operations that are left when every call for session [A] is
    removed. *)
Definition without_session (A : string) (ops : list op) : list op :=
  filter (λ o, op_session o ≠ A) ops.

(** ** Each session is a machine of its own

    [step_view o] is what a call [o] does to the view of its own session;
    [view_step] shows that it does nothing to any other view. *)
Definition step_view (o : op)
    (v : option (list string) * option (list BaseMessage))
  : option (list string) * option (list BaseMessage) :=
  match o with
  | Get_chat_history _ => (v.1, Some (default [] v.2))
  | Update_long_term_memory _ i _ => (Some (retained (default [] v.1) i), v.2)
  | Get_long_term_memory _ => v
  | Chat model i _ =>
      let history := default [] v.2 in
      match model (mkChainInput i (join ". " (default [] v.1)) history) with
      | Raised _ => (v.1, Some history)
      | Returned response =>
          (Some (retained (default [] v.1) i),
           Some (history ++ [HumanMessage i; AIMessage response]))
      end
  end.

(** ** The notebook's top-level cells *)

(** A cell runs statements and prints.  What has been printed is kept
    beside the state, one entry per call of [print], so that the text
    printed before an exception is not lost. *)
Definition Cell (A : Type) : Type :=
  list string → state → outcome A * state * list string.

Definition cell_bind {A B} (c : Cell A) (k : A → Cell B) : Cell B :=
  λ out st, match c out st with
            | (Returned a, st', out') => k a out' st'
            | (Raised e, st', out') => (Raised e, st', out')
            end.

(** A statement that prints nothing. *)
Definition lift {A} (m : M A) : Cell A :=
  λ out st, match m st with (o, st') => (o, st', out) end.

(** [print(text)] *)
Definition print (text : string) : Cell () :=
  λ out st, (Returned (), st, out ++ [text]).

Declare Scope cell_scope.
Delimit Scope cell_scope with cell.
Notation "x <- m ; k" := (cell_bind m (λ x, k))
  (at level 100, m at next level, right associativity) : cell_scope.
Notation "m ;; k" := (cell_bind m (λ _, k))
  (at level 100, right associativity) : cell_scope.

(** [for x in l: body] *)
Fixpoint for_each {A} (l : list A) (body : A → Cell ()) : Cell () :=
  match l with
  | [] => λ out st, (Returned (), st, out)
  | x :: rest => cell_bind (body x) (λ _, for_each rest body)
  end.

(** The character ["\n"]. *)
Definition newline : string := String (Ascii.ascii_of_nat 10) EmptyString.

(** The cell "Example Usage", for the session it is run with (the notebook
    sets [session_id = "user_123"]) and the chain it talks to.
    [print("AI:", x)] writes the two arguments with a blank between them. *)
Definition example_usage (model : chain) (session_id : string) : Cell () :=
  (r1 <- lift (chat model "Hello! My name is Alice." session_id);
   print ("AI: " +:+ r1);;
   r2 <- lift (chat model "What's the weather like today?" session_id);
   print ("AI: " +:+ r2);;
   r3 <- lift (chat model "I love sunny days." session_id);
   print ("AI: " +:+ r3);;
   r4 <- lift (chat model "Do you remember my name?" session_id);
   print ("AI: " +:+ r4))%cell.

(** The cell "Review Memory". *)
Definition review_memory (session_id : string) : Cell () :=
  (print "Conversation History:";;
   h <- lift (chat_store_getitem session_id);
   ms <- lift (get_messages h);
   for_each ms (λ message, print (type message +:+ ": " +:+ content message));;
   print (newline +:+ "Long-term Memory:");;
   text <- lift (get_long_term_memory session_id);
   print text)%cell.

(** ** Further notions used in the statements *)

(** The messages of a conversation of (input, response) turns. *)
Definition transcript (turns : list (string * string)) : list BaseMessage :=
  flat_map (λ t, [HumanMessage t.1; AIMessage t.2]) turns.

(** What the chain is invoked with when [chat] is called in a state. *)
Definition chain_input_at (st : state) (input session_id : string)
  : chain_input :=
  mkChainInput input (join ". " (facts st session_id))
               (default [] (short_term st session_id)).

(** Calls of [update_long_term_memory] made directly rather than by [chat]. *)
Definition is_direct_update (o : op) : bool :=
  match o with
  | Update_long_term_memory _ _ _ => true
  | _ => false
  end.

(** The line the review cell prints for a message. *)
Definition message_line (message : BaseMessage) : string :=
  type message +:+ ": " +:+ content message.

(** ** What each function computes *)

Lemma get_chat_history_eq sid st :
  get_chat_history sid st =
    match chat_store st !! sid with
    | Some r => (Returned r, st)
    | None =>
        (Returned (length (objects st)),
         mkState (<[sid := length (objects st)]> (chat_store st))
                 (long_term_memory st) (objects st ++ [mkHistory []]))
    end.
Proof.
  destruct st as [cs ltm objs].
  unfold get_chat_history, bind, chat_store_contains, when; simpl.
  destruct (cs !! sid) as [r|] eqn:E.
  - rewrite bool_decide_eq_true_2 by eauto. simpl.
    unfold ret, chat_store_getitem; simpl. by rewrite E.
  - rewrite bool_decide_eq_false_2 by (intros [? ?]; congruence). simpl.
    unfold bind, new_ChatMessageHistory, chat_store_setitem, chat_store_getitem; simpl.
    by rewrite lookup_insert_eq.
Qed.

Lemma update_long_term_memory_eq sid input output st :
  update_long_term_memory sid input output st =
    (Returned (),
     mkState (chat_store st)
             (<[sid := retained (facts st sid) input]> (long_term_memory st))
             (objects st)).
Proof.
  destruct st as [cs ltm objs].
  unfold update_long_term_memory, retained, facts, bind, when,
    long_term_memory_contains, long_term_memory_append, bind,
    long_term_memory_getitem, long_term_memory_setitem, ret; simpl.
  destruct (ltm !! sid) as [l|] eqn:E; simpl;
    destruct (20 <? String.length input); simpl;
    rewrite ?E, ?lookup_insert_eq; simpl;
    rewrite ?E, ?lookup_insert_eq; simpl;
    try match goal with |- context [5 <? ?n] => destruct (5 <? n) end; simpl;
    rewrite ?E, ?lookup_insert_eq, ?insert_insert_eq; simpl;
    rewrite ?insert_insert_eq; try done.
  by rewrite insert_id.
Qed.

Lemma get_long_term_memory_eq sid st :
  get_long_term_memory sid st = (Returned (join ". " (facts st sid)), st).
Proof. reflexivity. Qed.

Lemma chat_eq model input sid st :
  chat model input sid st =
    let st1 := step (Get_chat_history sid) st in
    let r := session_ref st sid in
    match objects st1 !! r with
    | None => (Raised (InvalidReference r), st1)
    | Some h =>
        match model (mkChainInput input (join ". " (facts st sid)) (messages h)) with
        | Raised e => (Raised e, st1)
        | Returned response =>
            (Returned response,
             mkState (chat_store st1)
               (<[sid := retained (facts st sid) input]> (long_term_memory st))
               (<[r := mkHistory (messages h ++
                        [HumanMessage input; AIMessage response])]> (objects st1)))
        end
    end.
Proof.
  unfold chat, bind. rewrite get_long_term_memory_eq.
  unfold chain_with_history_invoke, bind, step, session_ref.
  rewrite get_chat_history_eq.
  destruct (chat_store st !! sid) as [r|] eqn:E; simpl;
    unfold get_messages; simpl.
  - destruct (objects st !! r) as [h|] eqn:Eh; [|done].
    destruct (model _) as [response|e]; [|done].
    unfold bind, add_messages, ret. rewrite Eh.
    rewrite update_long_term_memory_eq. reflexivity.
  - assert ((objects st ++ [mkHistory []]) !! length (objects st)
            = Some (mkHistory [])) as Eh
      by (rewrite lookup_app_r by lia; by rewrite Nat.sub_diag).
    rewrite Eh. simpl.
    destruct (model _) as [response|e]; [|done].
    unfold bind, add_messages, ret; simpl. rewrite Eh.
    rewrite update_long_term_memory_eq. reflexivity.
Qed.

Lemma initial_state_well_formed : well_formed initial_state.
Proof. split; intros *; simpl; by rewrite lookup_empty. Qed.

Lemma well_formed_ref st s r :
  well_formed st → chat_store st !! s = Some r → is_Some (objects st !! r).
Proof. intros [Hv _] E. apply lookup_lt_is_Some. eauto. Qed.

Lemma get_chat_history_well_formed sid st :
  well_formed st → well_formed (step (Get_chat_history sid) st).
Proof.
  intros [Hv Hi]. simpl. rewrite get_chat_history_eq.
  destruct (chat_store st !! sid) as [r|] eqn:E; [done|].
  split; simpl.
  - intros s r. rewrite length_app; simpl.
    destruct (decide (sid = s)) as [->|Hne].
    + rewrite lookup_insert_eq. intros [= <-]. lia.
    + rewrite lookup_insert_ne by done. intros H. apply Hv in H. lia.
  - intros s1 s2 r.
    destruct (decide (s1 = sid)) as [->|H1], (decide (s2 = sid)) as [->|H2];
      rewrite ?lookup_insert_eq, ?lookup_insert_ne by done; try done.
    + intros [= <-] H. apply Hv in H. lia.
    + intros H [= <-]. apply Hv in H. lia.
    + apply Hi.
Qed.

Lemma step_well_formed o st : well_formed st → well_formed (step o st).
Proof.
  intros Hwf. destruct o as [sid|sid i out|sid|model i sid].
  - by apply get_chat_history_well_formed.
  - simpl. rewrite update_long_term_memory_eq. exact Hwf.
  - exact Hwf.
  - pose proof (get_chat_history_well_formed sid st Hwf) as Hwf1.
    unfold step at 1. rewrite chat_eq. cbv zeta.
    destruct (objects _ !! _) as [h|]; [|done].
    destruct (model _) as [response|e]; [|done].
    destruct Hwf1 as [Hv Hi]. split; simpl.
    + intros s r. rewrite length_insert. apply Hv.
    + apply Hi.
Qed.

Lemma run_well_formed ops st : well_formed st → well_formed (run ops st).
Proof.
  revert st. induction ops as [|o ops IH]; intros st Hwf; simpl; [done|].
  apply IH. by apply step_well_formed.
Qed.

Lemma session_ref_lookup sid st :
  chat_store (step (Get_chat_history sid) st) !! sid = Some (session_ref st sid).
Proof.
  simpl. rewrite get_chat_history_eq. unfold session_ref.
  destruct (chat_store st !! sid) as [r|] eqn:E; simpl; [done|].
  by rewrite lookup_insert_eq.
Qed.

(** In a well-formed state the only exception [chat] lets through is one
    raised by the external model. *)
Lemma chat_raises_what_the_model_raises model input sid st e :
  well_formed st →
  fst (chat model input sid st) = Raised e →
  ∃ ci, model ci = Raised e.
Proof.
  intros Hwf. rewrite chat_eq. cbv zeta.
  pose proof (get_chat_history_well_formed sid st Hwf) as Hwf1.
  destruct (well_formed_ref _ _ _ Hwf1 (session_ref_lookup sid st)) as [h ->].
  destruct (model _) as [response|e'] eqn:E; simpl; [done|].
  intros [= <-]. eauto.
Qed.

Lemma get_chat_history_view sid st s :
  well_formed st →
  view (step (Get_chat_history sid) st) s =
    if decide (sid = s) then step_view (Get_chat_history sid) (view st s)
    else view st s.
Proof.
  intros Hwf. simpl. rewrite get_chat_history_eq. unfold view, short_term.
  destruct (chat_store st !! sid) as [r|] eqn:E; simpl.
  - case_decide as Hs; [subst s|done]. rewrite E.
    destruct (well_formed_ref _ _ _ Hwf E) as [h ->]. done.
  - case_decide as Hs; [subst s|].
    + rewrite E, lookup_insert_eq. simpl.
      rewrite lookup_app_r by lia. by rewrite Nat.sub_diag.
    + rewrite lookup_insert_ne by done.
      destruct (chat_store st !! s) as [r|] eqn:Es; [|done].
      destruct Hwf as [Hv _]. rewrite lookup_app_l by eauto. done.
Qed.

Lemma view_step o st s :
  well_formed st →
  view (step o st) s =
    if decide (op_session o = s) then step_view o (view st s) else view st s.
Proof.
  intros Hwf. destruct o as [sid|sid i out|sid|model i sid].
  - by apply get_chat_history_view.
  - simpl. rewrite update_long_term_memory_eq. unfold view, short_term, facts; simpl.
    case_decide as Hs; [subst s|].
    + by rewrite lookup_insert_eq.
    + by rewrite lookup_insert_ne.
  - simpl. by case_decide.
  - pose proof (get_chat_history_view sid st s Hwf) as Hview.
    pose proof (get_chat_history_well_formed sid st Hwf) as Hwf1.
    pose proof (session_ref_lookup sid st) as Href.
    unfold step at 1. rewrite chat_eq. cbv zeta.
    set (st1 := step (Get_chat_history sid) st) in *.
    set (r := session_ref st sid) in *.
    destruct (well_formed_ref _ _ _ Hwf1 Href) as [h Eh]. rewrite Eh.
    assert (long_term_memory st1 = long_term_memory st) as Eltm.
    { unfold st1. simpl. rewrite get_chat_history_eq.
      by destruct (chat_store st !! sid). }
    assert (short_term st1 sid = Some (messages h)) as Est.
    { unfold short_term. by rewrite Href, Eh. }
    unfold op_session.
    case_decide as Hs; [subst s|].
    + unfold view in Hview. rewrite Est, Eltm in Hview. simpl in Hview.
      injection Hview as Hh. simpl. unfold facts.
      rewrite <- Hh.
      destruct (model _) as [response|e]; simpl.
      * unfold view, short_term; simpl.
        rewrite lookup_insert_eq, Href, list_lookup_insert_eq
          by (by apply lookup_lt_is_Some). done.
      * unfold view. by rewrite Est, Eltm.
    + destruct (model _) as [response|e]; simpl; [|done].
      rewrite <- Hview. unfold view, short_term; simpl.
      rewrite lookup_insert_ne, Eltm by done.
      destruct (chat_store st1 !! s) as [r'|] eqn:Es; [|done].
      rewrite list_lookup_insert_ne; [done|].
      intros ->. destruct Hwf1 as [_ Hi]. by specialize (Hi _ _ _ Href Es).
Qed.

(** ** Slices, eviction and the retention step *)

Lemma slice_from_last5 {A} (l : list A) :
  slice_from (-5) l = drop (length l - 5) l.
Proof. unfold slice_from. simpl. f_equal. lia. Qed.

Lemma evict_oldest_drop {A} (capacity : nat) (l : list A) :
  evict_oldest capacity l = drop (length l - capacity) l.
Proof.
  induction l as [|x l IH]; [done|].
  cbn [evict_oldest]. destruct (capacity <? length (x :: l)) eqn:E.
  - apply Nat.ltb_lt in E. simpl in E. rewrite IH.
    replace (length (x :: l) - capacity) with (S (length l - capacity))
      by (simpl; lia).
    done.
  - apply Nat.ltb_ge in E.
    by replace (length (x :: l) - capacity) with 0 by lia.
Qed.

Lemma retained_slice l input :
  retained l input =
    slice_from (-5) (if 20 <? String.length input
                     then l ++ ["User said: " +:+ input] else l).
Proof.
  unfold retained. cbv zeta.
  destruct (5 <? length _) eqn:E; [done|].
  apply Nat.ltb_ge in E. rewrite slice_from_last5.
  by replace (length _ - 5) with 0 by lia.
Qed.

Lemma retained_length l input : length (retained l input) ≤ 5.
Proof. rewrite retained_slice, slice_from_last5, length_drop. lia. Qed.

Lemma retained_accepted l input :
  20 < String.length input →
  retained l input = slice_from (-5) (l ++ ["User said: " +:+ input]).
Proof.
  intros H. rewrite retained_slice.
  by rewrite (proj2 (Nat.ltb_lt _ _) H).
Qed.

Lemma retained_rejected l input :
  String.length input ≤ 20 → retained l input = slice_from (-5) l.
Proof.
  intros H. rewrite retained_slice.
  by rewrite (proj2 (Nat.ltb_ge _ _) H).
Qed.

Lemma slice_from_last5_app {A} (l news : list A) :
  slice_from (-5) (slice_from (-5) l ++ news) = slice_from (-5) (l ++ news).
Proof.
  rewrite !slice_from_last5, !length_app, length_drop.
  destruct (decide (length l ≤ 5)) as [Hle|Hgt].
  - replace (length l - 5) with 0 by lia. simpl. f_equal. lia.
  - rewrite !skipn_app, length_drop, drop_drop. f_equal; f_equal; lia.
Qed.

(** ** What a step does to the long-term dictionary *)

Lemma long_term_memory_step o st :
  long_term_memory (step o st) = long_term_memory st ∨
  ∃ input,
    long_term_memory (step o st) =
      <[op_session o := retained (facts st (op_session o)) input]>
        (long_term_memory st).
Proof.
  destruct o as [sid|sid i out|sid|model i sid]; simpl.
  - left. rewrite get_chat_history_eq. by destruct (chat_store st !! sid).
  - right. exists i. by rewrite update_long_term_memory_eq.
  - by left.
  - rewrite chat_eq. cbv zeta.
    assert (long_term_memory (step (Get_chat_history sid) st)
            = long_term_memory st) as E.
    { simpl. rewrite get_chat_history_eq. by destruct (chat_store st !! sid). }
    destruct (objects _ !! _) as [h|]; [|by left].
    destruct (model _) as [response|e]; [|by left].
    right. by exists i.
Qed.

Lemma chat_store_step o st s r :
  chat_store st !! s = Some r → chat_store (step o st) !! s = Some r.
Proof.
  intros E.
  assert (∀ sid, chat_store (step (Get_chat_history sid) st) !! s = Some r) as Hg.
  { intros sid. simpl. rewrite get_chat_history_eq.
    destruct (chat_store st !! sid) as [r'|] eqn:E'; simpl; [done|].
    rewrite lookup_insert_ne; [done|]. intros ->. congruence. }
  destruct o as [sid|sid i out|sid|model i sid].
  - apply Hg.
  - simpl. by rewrite update_long_term_memory_eq.
  - done.
  - unfold step. rewrite chat_eq. cbv zeta.
    destruct (objects _ !! _) as [h|]; [|apply Hg].
    destruct (model _) as [response|e]; [|apply Hg].
    simpl. apply Hg.
Qed.

Lemma chat_store_run ops st s r :
  chat_store st !! s = Some r → chat_store (run ops st) !! s = Some r.
Proof.
  revert st. induction ops as [|o ops IH]; intros st E; simpl; [done|].
  apply IH. by apply chat_store_step.
Qed.

Lemma step_within_capacity o st :
  within_capacity st → within_capacity (step o st).
Proof.
  intros Hc sid l.
  destruct (long_term_memory_step o st) as [->|[input ->]]; [apply Hc|].
  destruct (decide (op_session o = sid)) as [->|Hne].
  - rewrite lookup_insert_eq. intros [= <-]. apply retained_length.
  - rewrite lookup_insert_ne by done. apply Hc.
Qed.

Lemma run_within_capacity ops st :
  within_capacity st → within_capacity (run ops st).
Proof.
  revert st. induction ops as [|o ops IH]; intros st Hc; simpl; [done|].
  apply IH. by apply step_within_capacity.
Qed.

Lemma initial_state_within_capacity : within_capacity initial_state.
Proof. intros sid l. simpl. by rewrite lookup_empty. Qed.

Lemma retained_new_facts l input :
  retained l input = slice_from (-5) (l ++ new_facts [input]).
Proof.
  rewrite retained_slice. simpl.
  destruct (20 <? String.length input); [done|]. by rewrite app_nil_r.
Qed.

Lemma new_facts_cons input rest :
  new_facts (input :: rest) = new_facts [input] ++ new_facts rest.
Proof. simpl. by destruct (20 <? String.length input). Qed.

Lemma updates_lookup sid ios st :
  ios ≠ [] →
  long_term_memory (run (updates sid ios) st) !! sid =
    Some (slice_from (-5) (facts st sid ++ new_facts ios.*1)).
Proof.
  revert st. induction ios as [|[i out] rest IH]; intros st Hne; [done|].
  cbn [updates map run fst snd]. fold (updates sid rest).
  assert (long_term_memory (step (Update_long_term_memory sid i out) st) !! sid
          = Some (slice_from (-5) (facts st sid ++ new_facts [i]))) as E1.
  { simpl. rewrite update_long_term_memory_eq. simpl.
    by rewrite lookup_insert_eq, retained_new_facts. }
  destruct rest as [|io' rest'].
  - exact E1.
  - assert (facts (step (Update_long_term_memory sid i out) st) sid
            = slice_from (-5) (facts st sid ++ new_facts [i])) as E2
      by (unfold facts at 1; by rewrite E1).
    rewrite IH, E2 by done.
    rewrite slice_from_last5_app, <- (assoc_L (++)).
    change (((i, out) :: io' :: rest').*1) with (i :: (io' :: rest').*1).
    by rewrite (new_facts_cons i ((io' :: rest').*1)).
Qed.

Lemma retained_elem f l input :
  f ∈ retained l input →
  f ∈ l ∨ (f = "User said: " +:+ input ∧ 20 < String.length input).
Proof.
  rewrite retained_slice, slice_from_last5. intros H.
  apply (subseteq_drop _ _ f) in H.
  destruct (20 <? String.length input) eqn:E; [|by left].
  apply Nat.ltb_lt in E. apply elem_of_app in H as [H|H]; [by left|].
  right. apply list_elem_of_singleton in H. done.
Qed.

Lemma retained_last l input :
  20 < String.length input →
  last (retained l input) = Some ("User said: " +:+ input).
Proof.
  intros H. rewrite retained_accepted, slice_from_last5 by done.
  rewrite drop_app_le by (rewrite length_app; simpl; lia).
  apply last_snoc.
Qed.

Lemma retained_within_capacity l input :
  length l ≤ 5 → String.length input ≤ 20 → retained l input = l.
Proof.
  intros Hl Hi. rewrite retained_rejected, slice_from_last5 by done.
  by replace (length l - 5) with 0 by lia.
Qed.

Lemma step_only_accepted_facts o st :
  only_accepted_facts st → only_accepted_facts (step o st).
Proof.
  intros Ha sid l f.
  destruct (long_term_memory_step o st) as [->|[input ->]]; [apply Ha|].
  destruct (decide (op_session o = sid)) as [->|Hne].
  - rewrite lookup_insert_eq. intros [= <-] Hf.
    apply retained_elem in Hf as [Hf|Hf]; [|by exists input].
    unfold facts in Hf.
    destruct (long_term_memory st !! sid) as [l0|] eqn:E; simpl in Hf.
    + by apply (Ha _ _ _ E).
    + by apply elem_of_nil in Hf.
  - rewrite lookup_insert_ne by done. apply Ha.
Qed.

Lemma run_only_accepted_facts ops st :
  only_accepted_facts st → only_accepted_facts (run ops st).
Proof.
  revert st. induction ops as [|o ops IH]; intros st Ha; simpl; [done|].
  apply IH. by apply step_only_accepted_facts.
Qed.

Lemma initial_state_only_accepted_facts : only_accepted_facts initial_state.
Proof. intros sid l f. simpl. by rewrite lookup_empty. Qed.

Lemma facts_within_capacity st sid :
  within_capacity st → length (facts st sid) ≤ 5.
Proof.
  intros Hc. unfold facts.
  destruct (long_term_memory st !! sid) as [l|] eqn:E; simpl; [eauto|lia].
Qed.

Lemma facts_only_accepted st sid f :
  only_accepted_facts st → f ∈ facts st sid →
  ∃ input, f = "User said: " +:+ input ∧ 20 < String.length input.
Proof.
  intros Ha. unfold facts.
  destruct (long_term_memory st !! sid) as [l|] eqn:E; simpl.
  - intros Hf. by apply (Ha _ _ _ E).
  - by intros ?%elem_of_nil.
Qed.

Lemma facts_update sid input output st :
  facts (step (Update_long_term_memory sid input output) st) sid =
  retained (facts st sid) input.
Proof.
  simpl. rewrite update_long_term_memory_eq. unfold facts at 1. simpl.
  by rewrite lookup_insert_eq.
Qed.

(** ** Isolation of sessions *)

Lemma chat_store_step_other o st s :
  op_session o ≠ s → chat_store (step o st) !! s = chat_store st !! s.
Proof.
  intros Hne.
  assert (∀ sid, sid ≠ s →
            chat_store (step (Get_chat_history sid) st) !! s = chat_store st !! s)
    as Hg.
  { intros sid Hs. simpl. rewrite get_chat_history_eq.
    destruct (chat_store st !! sid); simpl; [done|].
    by rewrite lookup_insert_ne. }
  destruct o as [sid|sid i out|sid|model i sid]; simpl in Hne.
  - by apply Hg.
  - simpl. by rewrite update_long_term_memory_eq.
  - done.
  - unfold step. rewrite chat_eq. cbv zeta.
    destruct (objects _ !! _) as [h|]; [|by apply Hg].
    destruct (model _) as [response|e]; [|by apply Hg].
    simpl. by apply Hg.
Qed.

Lemma rendered_view st s :
  rendered st s = Returned (join ". " (default [] (view st s).1)).
Proof. reflexivity. Qed.

Lemma run_without_session A ops st1 st2 :
  well_formed st1 → well_formed st2 →
  (∀ s, s ≠ A → view st1 s = view st2 s) →
  ∀ s, s ≠ A → view (run ops st1) s = view (run (without_session A ops) st2) s.
Proof.
  revert st1 st2.
  induction ops as [|o ops IH]; intros st1 st2 Hwf1 Hwf2 Hv s Hs; [by apply Hv|].
  unfold without_session. rewrite filter_cons. fold (without_session A ops).
  simpl. case_decide as Ho.
  - simpl. apply IH; [by apply step_well_formed..| |done].
    intros s' Hs'. rewrite !view_step by done.
    case_decide; [|by apply Hv]. by rewrite Hv.
  - apply IH; [by apply step_well_formed|done| |done].
    intros s' Hs'. rewrite view_step by done.
    rewrite decide_False by congruence. by apply Hv.
Qed.

Lemma opened_history sid st :
  well_formed st →
  ∃ h, objects (step (Get_chat_history sid) st) !! session_ref st sid = Some h ∧
       messages h = default [] (short_term st sid).
Proof.
  intros Hwf.
  pose proof (get_chat_history_view sid st sid Hwf) as Hview.
  pose proof (get_chat_history_well_formed sid st Hwf) as Hwf1.
  pose proof (session_ref_lookup sid st) as Href.
  destruct (well_formed_ref _ _ _ Hwf1 Href) as [h Eh].
  exists h. split; [exact Eh|].
  rewrite decide_True in Hview by done.
  assert (short_term (step (Get_chat_history sid) st) sid
          = Some (default [] (short_term st sid))) as Hs
    by exact (f_equal snd Hview).
  unfold short_term in Hs at 1. rewrite Href, Eh in Hs.
  by injection Hs.
Qed.

(** A history object never loses a message: a step leaves it alone or
    adds messages at its end. *)
Lemma objects_step_extend o st r h :
  objects st !! r = Some h →
  ∃ h' more, objects (step o st) !! r = Some h' ∧
             messages h' = messages h ++ more.
Proof.
  intros E.
  assert (∀ sid, objects (step (Get_chat_history sid) st) !! r = Some h) as Hg.
  { intros sid. simpl. rewrite get_chat_history_eq.
    destruct (chat_store st !! sid); simpl; [done|].
    rewrite lookup_app_l; [done|]. by apply lookup_lt_Some in E. }
  assert (∀ objs : list ChatMessageHistory, objs !! r = Some h →
            ∃ h' more, objs !! r = Some h' ∧ messages h' = messages h ++ more)
    as Hsame.
  { intros objs Eo. exists h, []. by rewrite app_nil_r. }
  destruct o as [sid|sid i out|sid|model i sid].
  - apply Hsame, Hg.
  - apply Hsame. simpl. by rewrite update_long_term_memory_eq.
  - by apply Hsame.
  - unfold step at 1. rewrite chat_eq. cbv zeta.
    destruct (objects _ !! session_ref st sid) as [h0|] eqn:E0;
      [|apply Hsame, Hg].
    destruct (model _) as [response|e]; [|apply Hsame, Hg].
    simpl. destruct (decide (session_ref st sid = r)) as [Hr|Hr].
    + rewrite Hr in *. rewrite Hg in E0. injection E0 as <-.
      exists (mkHistory (messages h ++ [HumanMessage i; AIMessage response])),
        [HumanMessage i; AIMessage response].
      split; [|reflexivity].
      apply list_lookup_insert_eq. exact (lookup_lt_Some _ _ _ (Hg sid)).
    + apply Hsame. rewrite list_lookup_insert_ne by done. apply Hg.
Qed.

Lemma objects_run_extend ops st r h :
  objects st !! r = Some h →
  ∃ h' more, objects (run ops st) !! r = Some h' ∧
             messages h' = messages h ++ more.
Proof.
  revert st h. induction ops as [|o ops IH]; intros st h E; simpl.
  - exists h, []. by rewrite app_nil_r.
  - destruct (objects_step_extend o st r h E) as (h1 & m1 & E1 & Hm1).
    destruct (IH _ _ E1) as (h2 & m2 & E2 & Hm2).
    exists h2, (m1 ++ m2). split; [done|].
    by rewrite Hm2, Hm1, (assoc_L (++)).
Qed.

(** A session keeps its history: the reference stays and the messages stay,
    with later ones behind them. *)
Lemma short_term_run_extend ops st s ms :
  short_term st s = Some ms →
  ∃ more, short_term (run ops st) s = Some (ms ++ more).
Proof.
  unfold short_term. intros E.
  destruct (chat_store st !! s) as [r|] eqn:Er; [|done].
  destruct (objects st !! r) as [h|] eqn:Eh; [|done].
  injection E as <-.
  rewrite (chat_store_run ops st s r Er).
  destruct (objects_run_extend ops st r h Eh) as (h' & more & -> & Hm).
  exists more. simpl. by rewrite Hm.
Qed.

(** * The claims *)

(** C1 (FIFO eviction).  After any non-empty sequence of calls of
    [update_long_term_memory] for one session, the session's store is the
    old store followed by the facts of the accepted inputs, in order, with
    the element at index 0 removed while the size exceeds 5; this is the
    last five of them.  In particular when seven facts f1..f7 were
    accepted, the store is exactly [f3; f4; f5; f6; f7] and
    [get_long_term_memory] returns "f3. f4. f5. f6. f7". *)
Theorem fifo_eviction st sid (ios : list (string * string)) :
  ios ≠ [] →
  let st' := run (updates sid ios) st in
  let fs := new_facts ios.*1 in
  facts st' sid = evict_oldest 5 (facts st sid ++ fs) ∧
  facts st' sid = drop (length (facts st sid ++ fs) - 5) (facts st sid ++ fs) ∧
  ∀ f1 f2 f3 f4 f5 f6 f7, fs = [f1; f2; f3; f4; f5; f6; f7] →
    long_term_memory st' !! sid = Some [f3; f4; f5; f6; f7] ∧
    get_long_term_memory sid st' =
      (Returned (f3 +:+ ". " +:+ f4 +:+ ". " +:+ f5 +:+ ". " +:+ f6
                 +:+ ". " +:+ f7), st').
Proof.
  intros Hne st' fs.
  pose proof (updates_lookup sid ios st Hne) as E.
  fold st' fs in E. rewrite slice_from_last5 in E.
  assert (facts st' sid
          = drop (length (facts st sid ++ fs) - 5) (facts st sid ++ fs)) as Ef
    by (unfold facts at 1; by rewrite E).
  split; [by rewrite evict_oldest_drop|]. split; [done|].
  intros f1 f2 f3 f4 f5 f6 f7 Hfs.
  assert (drop (length (facts st sid ++ fs) - 5) (facts st sid ++ fs)
          = [f3; f4; f5; f6; f7]) as Ed.
  { rewrite Hfs, length_app. simpl.
    rewrite drop_app_ge by lia.
    by replace (length (facts st sid) + 7 - 5 - length (facts st sid))
      with 2 by lia. }
  split; [by rewrite E, Ed|].
  by rewrite get_long_term_memory_eq, Ef, Ed.
Qed.

Lemma fifo_eviction_witness :
  let ios := [("The first thing I tell you", "a1");
              ("The second thing I tell you", "a2");
              ("The third thing I tell you", "a3");
              ("short", "a4");
              ("The fourth thing I tell you", "a5");
              ("The fifth thing I tell you", "a6");
              ("The sixth thing I tell you", "a7");
              ("The seventh thing I tell you", "a8")] in
  let st' := run (updates "user_123" ios) initial_state in
  ios ≠ [] ∧
  long_term_memory st' !! "user_123" =
    Some ["User said: The third thing I tell you";
          "User said: The fourth thing I tell you";
          "User said: The fifth thing I tell you";
          "User said: The sixth thing I tell you";
          "User said: The seventh thing I tell you"] ∧
  get_long_term_memory "user_123" st' =
    (Returned ("User said: The third thing I tell you" +:+ ". " +:+
               "User said: The fourth thing I tell you" +:+ ". " +:+
               "User said: The fifth thing I tell you" +:+ ". " +:+
               "User said: The sixth thing I tell you" +:+ ". " +:+
               "User said: The seventh thing I tell you"), st').
Proof.
  intros ios st'.
  assert (ios ≠ []) as Hne by discriminate.
  split; [exact Hne|].
  exact (proj2 (proj2 (fifo_eviction initial_state "user_123" ios Hne))
           _ _ _ _ _ _ _ eq_refl).
Defined.

(** C2 (retention boundary).  In every reachable state and for every
    session, a call of [update_long_term_memory] leaves the fact
    "User said: " + input in the session's store if and only if the input
    has more than 20 characters.  The 20-character input
    "12345678901234567890" is not retained and leaves the store as it was;
    the 21-character input "123456789012345678901" is retained, as the
    newest fact "User said: 123456789012345678901". *)
Theorem retention_boundary ops sid output :
  let st := run ops initial_state in
  (∀ input,
     ("User said: " +:+ input)
       ∈ facts (step (Update_long_term_memory sid input output) st) sid
     ↔ 20 < String.length input) ∧
  ("User said: 12345678901234567890"
     ∉ facts (step (Update_long_term_memory sid "12345678901234567890" output) st) sid) ∧
  (facts (step (Update_long_term_memory sid "12345678901234567890" output) st) sid
     = facts st sid) ∧
  (last (facts (step (Update_long_term_memory sid "123456789012345678901" output) st) sid)
     = Some "User said: 123456789012345678901").
Proof.
  intros st.
  assert (within_capacity st) as Hc
    by apply run_within_capacity, initial_state_within_capacity.
  assert (only_accepted_facts st) as Ha
    by apply run_only_accepted_facts, initial_state_only_accepted_facts.
  assert (∀ input,
     ("User said: " +:+ input)
       ∈ facts (step (Update_long_term_memory sid input output) st) sid
     ↔ 20 < String.length input) as Hiff.
  { intros input. rewrite facts_update. split.
    - intros [Hf|[_ Hf]]%retained_elem; [|done].
      destruct (facts_only_accepted _ _ _ Ha Hf) as (input' & Heq & Hlen).
      simpl in Heq. by simplify_eq.
    - intros Hlen. apply last_Some_elem_of. by apply retained_last. }
  split; [exact Hiff|]. split; [|split].
  - rewrite (Hiff "12345678901234567890"). simpl. lia.
  - rewrite facts_update. apply retained_within_capacity.
    + by apply facts_within_capacity.
    + simpl. lia.
  - rewrite facts_update. apply retained_last. simpl. lia.
Qed.

Lemma retention_boundary_witness :
  let st := run [Update_long_term_memory "user_123" "Hello! My name is Alice." "r1"]
                initial_state in
  ("User said: 12345678901234567890"
     ∉ facts (step (Update_long_term_memory "user_123" "12345678901234567890" "r2") st)
             "user_123") ∧
  (last (facts (step (Update_long_term_memory "user_123" "123456789012345678901" "r2") st)
               "user_123")
     = Some "User said: 123456789012345678901").
Proof.
  intros st.
  destruct (retention_boundary
              [Update_long_term_memory "user_123" "Hello! My name is Alice." "r1"]
              "user_123" "r2") as (_ & Hnot & _ & Hlast).
  split; [exact Hnot|exact Hlast].
Defined.

(** The two boundary inputs on a fresh session. *)
Example retention_boundary_example :
  long_term_memory
    (step (Update_long_term_memory "s" "12345678901234567890" "reply")
          initial_state) !! "s" = Some [] ∧
  long_term_memory
    (step (Update_long_term_memory "s" "123456789012345678901" "reply")
          initial_state) !! "s" = Some ["User said: 123456789012345678901"].
Proof. split; vm_compute; reflexivity. Qed.

(** C3 (rendering).  [get_long_term_memory] returns the session's facts
    joined with ". ", oldest first, and changes nothing; a session without
    facts renders as the empty string.  From a session without facts, the
    four inputs of the notebook's example leave exactly the three accepted
    ones, and the rendering is the string shown in the notebook. *)
Theorem render_long_term st sid :
  get_long_term_memory sid st = (Returned (join ". " (facts st sid)), st) ∧
  join ". " [] = "" ∧
  (∀ f, join ". " [f] = f) ∧
  (∀ f g l, join ". " (f :: g :: l) = f +:+ ". " +:+ join ". " (g :: l)) ∧
  (facts st sid = [] →
     rendered st sid = Returned "" ∧
     ∀ o1 o2 o3 o4,
       let st' := run [Update_long_term_memory sid "Hello! My name is Alice." o1;
                       Update_long_term_memory sid "What's the weather like today?" o2;
                       Update_long_term_memory sid "I love sunny days." o3;
                       Update_long_term_memory sid "Do you remember my name?" o4] st in
       facts st' sid = ["User said: Hello! My name is Alice.";
                        "User said: What's the weather like today?";
                        "User said: Do you remember my name?"] ∧
       rendered st' sid =
         Returned "User said: Hello! My name is Alice.. User said: What's the weather like today?. User said: Do you remember my name?").
Proof.
  split; [apply get_long_term_memory_eq|].
  split; [done|]. split; [done|]. split; [done|].
  intros Hempty. split.
  { unfold rendered. by rewrite get_long_term_memory_eq, Hempty. }
  intros o1 o2 o3 o4 st'.
  pose proof (updates_lookup sid
    [("Hello! My name is Alice.", o1); ("What's the weather like today?", o2);
     ("I love sunny days.", o3); ("Do you remember my name?", o4)] st) as E.
  rewrite Hempty in E. specialize (E ltac:(done)).
  change (long_term_memory st' !! sid =
          Some ["User said: Hello! My name is Alice.";
                "User said: What's the weather like today?";
                "User said: Do you remember my name?"]) in E.
  assert (facts st' sid = ["User said: Hello! My name is Alice.";
                           "User said: What's the weather like today?";
                           "User said: Do you remember my name?"]) as Ef.
  { unfold facts. by rewrite E. }
  split; [exact Ef|].
  unfold rendered. by rewrite get_long_term_memory_eq, Ef.
Qed.

Lemma render_long_term_witness :
  facts initial_state "user_123" = [] ∧
  rendered
    (run [Update_long_term_memory "user_123" "Hello! My name is Alice." "r1";
          Update_long_term_memory "user_123" "What's the weather like today?" "r2";
          Update_long_term_memory "user_123" "I love sunny days." "r3";
          Update_long_term_memory "user_123" "Do you remember my name?" "r4"]
       initial_state) "user_123" =
    Returned "User said: Hello! My name is Alice.. User said: What's the weather like today?. User said: Do you remember my name?".
Proof.
  split; [reflexivity|].
  destruct (render_long_term initial_state "user_123") as (_ & _ & _ & _ & H).
  destruct (H eq_refl) as [_ H'].
  exact (proj2 (H' "r1" "r2" "r3" "r4")).
Defined.

(** C4 (session ids are not validated).  For every session id, the empty
    string included, [get_chat_history] returns normally.  It returns the
    reference stored for the session and changes nothing when the session
    exists; otherwise it allocates an empty history, stores its reference
    under the session id and returns it, leaving the long-term dictionary
    and every existing object as they were. *)
Theorem get_chat_history_total sid st :
  ∃ r,
    get_chat_history sid st = (Returned r, step (Get_chat_history sid) st) ∧
    chat_store (step (Get_chat_history sid) st) !! sid = Some r ∧
    (∀ r0, chat_store st !! sid = Some r0 →
       r = r0 ∧ step (Get_chat_history sid) st = st) ∧
    (chat_store st !! sid = None →
       r = length (objects st) ∧
       step (Get_chat_history sid) st =
         mkState (<[sid := r]> (chat_store st)) (long_term_memory st)
                 (objects st ++ [mkHistory []])).
Proof.
  simpl. rewrite get_chat_history_eq.
  destruct (chat_store st !! sid) as [r|] eqn:E.
  - exists r. simpl. split; [done|]. split; [done|]. split; [|done].
    by intros r0 [= <-].
  - exists (length (objects st)). simpl. rewrite lookup_insert_eq.
    split; [done|]. split; [done|]. split; done.
Qed.

Lemma get_chat_history_total_witness :
  chat_store initial_state !! "user_123" = None ∧
  ∃ r, get_chat_history "user_123" initial_state =
         (Returned r, mkState (<["user_123" := r]> ∅) ∅ [mkHistory []]).
Proof.
  assert (chat_store initial_state !! "user_123" = None) as E by reflexivity.
  split; [exact E|].
  destruct (get_chat_history_total "user_123" initial_state)
    as (r & Hret & _ & _ & Hnew).
  exists r. destruct (Hnew E) as [_ Est]. rewrite Hret. f_equal. exact Est.
Defined.

(** C4, the claim as stated fails: the empty session id is accepted and a
    session is created for it. *)
Lemma get_chat_history_empty_id_counterexample :
  get_chat_history "" initial_state =
    (Returned 0, mkState {[ "" := 0 ]} ∅ [mkHistory []]) ∧
  (¬ ∃ e st', get_chat_history "" initial_state = (Raised e, st')) ∧
  snd (get_chat_history "" initial_state) ≠ initial_state.
Proof.
  assert (get_chat_history "" initial_state =
            (Returned 0, mkState {[ "" := 0 ]} ∅ [mkHistory []])) as E
    by (vm_compute; reflexivity).
  split; [exact E|]. rewrite E. split.
  - intros (e & st' & H). discriminate H.
  - simpl. unfold initial_state. intros H. discriminate H.
Qed.

(** C5 (idempotent session creation).  From any state, [get_chat_history]
    returns a reference [r]; a second call returns the same reference and
    changes nothing; and whatever operations follow, the session id stays
    bound to [r], which every later [get_chat_history] returns again.
    In every reachable state, moreover, [r] refers to a history object of
    the object store: the session's existing one, or a new empty one for a
    session seen for the first time.  No other session id is bound to it,
    what is added through the reference from the first call is read
    through the reference from the second, and after any further
    operations [r] is still this session's and no other's, and the object
    still holds the same messages, with later ones behind them. *)
Theorem session_creation_idempotent sid :
  (∀ st, ∃ r st1,
     get_chat_history sid st = (Returned r, st1) ∧
     get_chat_history sid st1 = (Returned r, st1) ∧
     ∀ ops,
       chat_store (run ops st1) !! sid = Some r ∧
       get_chat_history sid (run ops st1) = (Returned r, run ops st1)) ∧
  (∀ ops,
     let st := run ops initial_state in
     ∃ r st1 h,
       get_chat_history sid st = (Returned r, st1) ∧
       get_chat_history sid st1 = (Returned r, st1) ∧
       objects st1 !! r = Some h ∧
       messages h = default [] (short_term st sid) ∧
       (∀ sid', chat_store st1 !! sid' = Some r → sid' = sid) ∧
       (∀ ms, ∃ st2,
          add_messages r ms st1 = (Returned (), st2) ∧
          get_messages r st2 = (Returned (messages h ++ ms), st2)) ∧
       ∀ later,
         let st' := run later st1 in
         chat_store st' !! sid = Some r ∧
         get_chat_history sid st' = (Returned r, st') ∧
         (∀ sid', chat_store st' !! sid' = Some r → sid' = sid) ∧
         ∃ more,
           messages <$> objects st' !! r = Some (messages h ++ more) ∧
           short_term st' sid = Some (messages h ++ more)).
Proof.
  assert (∀ st' r, chat_store st' !! sid = Some r →
                   get_chat_history sid st' = (Returned r, st')) as Hagain.
  { intros st' r E'. by rewrite get_chat_history_eq, E'. }
  split.
  - intros st.
    destruct (get_chat_history_total sid st) as (r & E & Er & _).
    exists r, (step (Get_chat_history sid) st). split; [exact E|].
    split; [by apply Hagain|].
    intros ops. pose proof (chat_store_run ops _ _ _ Er) as Eops.
    split; [exact Eops|by apply Hagain].
  - intros ops st.
    pose proof (run_well_formed ops _ initial_state_well_formed) as Hwf.
    fold st in Hwf.
    pose proof (get_chat_history_well_formed sid st Hwf) as Hwf1.
    pose proof (session_ref_lookup sid st) as Href.
    destruct (opened_history sid st Hwf) as (h & Eh & Hm).
    set (st1 := step (Get_chat_history sid) st) in *.
    set (r := session_ref st sid) in *.
    exists r, st1, h.
    split.
    { unfold st1. simpl. rewrite get_chat_history_eq. unfold r, session_ref.
      by destruct (chat_store st !! sid). }
    split; [by apply Hagain|]. split; [exact Eh|]. split; [exact Hm|].
    split.
    { intros sid' E'. destruct Hwf1 as [_ Hi]. exact (Hi _ _ _ E' Href). }
    split.
    { intros ms. unfold add_messages, get_messages. rewrite Eh. simpl.
      eexists. split; [reflexivity|]. simpl.
      rewrite list_lookup_insert_eq by (by apply lookup_lt_Some in Eh).
      done. }
    intros later st'.
    pose proof (run_well_formed later st1 Hwf1) as Hwf'. fold st' in Hwf'.
    pose proof (chat_store_run later _ _ _ Href) as Er'. fold st' in Er'.
    split; [exact Er'|]. split; [by apply Hagain|]. split.
    { intros sid' E'. destruct Hwf' as [_ Hi]. exact (Hi _ _ _ E' Er'). }
    assert (short_term st1 sid = Some (messages h)) as Es
      by (unfold short_term; by rewrite Href, Eh).
    destruct (short_term_run_extend later st1 sid _ Es) as [more Emore].
    fold st' in Emore. exists more. split; [|exact Emore].
    unfold short_term in Emore. by rewrite Er' in Emore.
Qed.

Lemma session_creation_idempotent_witness :
  ∃ r st1 h,
    get_chat_history "user_123" initial_state = (Returned r, st1) ∧
    get_chat_history "user_123" st1 = (Returned r, st1) ∧
    objects st1 !! r = Some h ∧
    messages h = [].
Proof.
  destruct (proj2 (session_creation_idempotent "user_123") [])
    as (r & st1 & h & E1 & E2 & Eh & Hm & _).
  exists r, st1, h.
  split; [exact E1|]. split; [exact E2|]. split; [exact Eh|exact Hm].
Defined.

(** C6 (capacity bound).  In every state reached from the initial one by
    public operations no session holds more than 5 facts; the bound is
    preserved by every operation from any state that satisfies it, and
    [update_long_term_memory] establishes it for its own session from any
    state whatever. *)
Theorem capacity_bound ops :
  let st := run ops initial_state in
  (∀ sid, length (facts st sid) ≤ 5) ∧
  within_capacity st ∧
  (∀ st0 o, within_capacity st0 → within_capacity (step o st0)) ∧
  (∀ st0 sid input output,
     length (facts (step (Update_long_term_memory sid input output) st0) sid) ≤ 5).
Proof.
  intros st.
  assert (within_capacity st) as Hc
    by apply run_within_capacity, initial_state_within_capacity.
  split; [intros sid; by apply facts_within_capacity|].
  split; [exact Hc|]. split.
  - intros st0 o. apply step_within_capacity.
  - intros st0 sid input output. rewrite facts_update. apply retained_length.
Qed.

Lemma capacity_bound_witness :
  let st0 := run (updates "s" [("The first thing I tell you", "a1")]) initial_state in
  within_capacity st0 ∧
  within_capacity (step (Update_long_term_memory "s" "The second thing I tell you" "a2") st0).
Proof.
  intros st0.
  destruct (capacity_bound (updates "s" [("The first thing I tell you", "a1")]))
    as (_ & Hc & Hstep & _).
  split; [exact Hc|]. apply Hstep. exact Hc.
Defined.

(** C7 (cross-session isolation).  In every reachable state an operation
    for a session other than [B] leaves [B]'s facts, [B]'s history
    reference, the messages of [B]'s history and the rendering of [B] as
    they were.  Moreover what is observed for [B] at the end of a sequence
    of operations is what is observed when every operation for another
    session [A] is removed from the sequence: nothing supplied for [A]
    shows for [B]. *)
Theorem cross_session_isolation ops o (B : string) :
  op_session o ≠ B →
  let st := run ops initial_state in
  long_term_memory (step o st) !! B = long_term_memory st !! B ∧
  chat_store (step o st) !! B = chat_store st !! B ∧
  short_term (step o st) B = short_term st B ∧
  rendered (step o st) B = rendered st B ∧
  ∀ ops', let A := op_session o in
    view (run ops' initial_state) B
      = view (run (without_session A ops') initial_state) B ∧
    rendered (run ops' initial_state) B
      = rendered (run (without_session A ops') initial_state) B.
Proof.
  intros Hne st.
  assert (well_formed st) as Hwf
    by apply run_well_formed, initial_state_well_formed.
  pose proof (view_step o st B Hwf) as Hv.
  rewrite decide_False in Hv by done.
  split; [exact (f_equal fst Hv)|].
  split; [by apply chat_store_step_other|].
  split; [exact (f_equal snd Hv)|].
  split; [by rewrite !rendered_view, Hv|].
  intros ops' A.
  assert (view (run ops' initial_state) B
          = view (run (without_session A ops') initial_state) B) as Hrun.
  { apply run_without_session;
      [apply initial_state_well_formed..|done|by apply not_eq_sym]. }
  split; [exact Hrun|]. by rewrite !rendered_view, Hrun.
Qed.

Lemma cross_session_isolation_witness :
  let st := run [Chat (λ _, Returned "Hello B") "A question asked by B" "B"]
                initial_state in
  let o := Chat (λ _, Returned "Hello A") "A secret only A has told" "A" in
  op_session o ≠ "B" ∧
  short_term (step o st) "B" = short_term st "B" ∧
  rendered (step o st) "B" = rendered st "B".
Proof.
  intros st o.
  assert (op_session o ≠ "B") as Hne by discriminate.
  split; [exact Hne|].
  destruct (cross_session_isolation
              [Chat (λ _, Returned "Hello B") "A question asked by B" "B"]
              o "B" Hne) as (_ & _ & Hs & Hr & _).
  split; [exact Hs|exact Hr].
Defined.

(** One operation for "A" between two for "B", and what "B" sees. *)
Example cross_session_isolation_example :
  let ops := [Chat (λ _, Returned "Hello B") "A question asked by B" "B";
              Chat (λ _, Returned "Hello A") "A secret only A has told" "A"] in
  view (run ops initial_state) "B" =
    (Some ["User said: A question asked by B"],
     Some [HumanMessage "A question asked by B"; AIMessage "Hello B"]) ∧
  view (run ops initial_state) "A" =
    (Some ["User said: A secret only A has told"],
     Some [HumanMessage "A secret only A has told"; AIMessage "Hello A"]).
Proof. split; vm_compute; reflexivity. Qed.

(** C8 (a rejected candidate).  In every reachable state, a call of
    [update_long_term_memory] with an input of at most 20 characters
    returns normally and leaves the facts and the rendering of every
    session, the chat store and the history objects as they were.  When the
    session already has an entry the state is unchanged; when it has none,
    the one change is a new entry holding the empty list. *)
Theorem rejected_update ops sid input output :
  String.length input ≤ 20 →
  let st := run ops initial_state in
  let st' := step (Update_long_term_memory sid input output) st in
  update_long_term_memory sid input output st = (Returned (), st') ∧
  (∀ s, facts st' s = facts st s) ∧
  (∀ s, rendered st' s = rendered st s) ∧
  chat_store st' = chat_store st ∧
  objects st' = objects st ∧
  (∀ s, s ≠ sid → long_term_memory st' !! s = long_term_memory st !! s) ∧
  (is_Some (long_term_memory st !! sid) → st' = st) ∧
  (long_term_memory st !! sid = None →
     long_term_memory st' = <[sid := []]> (long_term_memory st)).
Proof.
  intros Hlen st st'.
  assert (within_capacity st) as Hc
    by apply run_within_capacity, initial_state_within_capacity.
  assert (retained (facts st sid) input = facts st sid) as Er
    by (apply retained_within_capacity; [by apply facts_within_capacity|done]).
  assert (st' = mkState (chat_store st)
                  (<[sid := facts st sid]> (long_term_memory st)) (objects st))
    as Est.
  { unfold st'. simpl. by rewrite update_long_term_memory_eq, Er. }
  assert (∀ s, facts st' s = facts st s) as Hfacts.
  { intros s. rewrite Est. unfold facts at 1. simpl.
    destruct (decide (sid = s)) as [->|Hne].
    - by rewrite lookup_insert_eq.
    - by rewrite lookup_insert_ne. }
  split; [by rewrite update_long_term_memory_eq, Er, Est|].
  split; [exact Hfacts|].
  split; [intros s; unfold rendered; by rewrite !get_long_term_memory_eq, Hfacts|].
  rewrite Est. simpl. split; [done|]. split; [done|].
  split; [intros s Hne; by rewrite lookup_insert_ne|]. split.
  - intros [l E]. unfold facts. rewrite E. simpl. rewrite insert_id by done.
    by destruct st.
  - intros E. unfold facts. by rewrite E.
Qed.

Lemma rejected_update_witness :
  let st := run [Update_long_term_memory "s" "The first thing I tell you" "a1"]
                initial_state in
  String.length "I love sunny days." ≤ 20 ∧
  fst (update_long_term_memory "s" "I love sunny days." "a2" st) = Returned () ∧
  step (Update_long_term_memory "s" "I love sunny days." "a2") st = st.
Proof.
  intros st.
  assert (String.length "I love sunny days." ≤ 20) as Hlen by (simpl; lia).
  split; [exact Hlen|].
  destruct (rejected_update
              [Update_long_term_memory "s" "The first thing I tell you" "a1"]
              "s" "I love sunny days." "a2" Hlen) as (E & _ & _ & _ & _ & _ & Hsame & _).
  split; [exact (f_equal fst E)|]. apply Hsame. vm_compute. eauto.
Defined.

(** C8, the claim as stated fails: for a session without an entry a
    rejected candidate still creates the entry, so the state changes. *)
Lemma rejected_update_counterexample :
  String.length "hi" ≤ 20 ∧
  update_long_term_memory "s" "hi" "reply" initial_state =
    (Returned (), mkState ∅ {[ "s" := [] ]} []) ∧
  snd (update_long_term_memory "s" "hi" "reply" initial_state) ≠ initial_state ∧
  long_term_memory (snd (update_long_term_memory "s" "hi" "reply" initial_state)) !! "s"
    ≠ long_term_memory initial_state !! "s".
Proof.
  assert (update_long_term_memory "s" "hi" "reply" initial_state =
            (Returned (), mkState ∅ {[ "s" := [] ]} [])) as E
    by (vm_compute; reflexivity).
  split; [simpl; lia|]. split; [exact E|]. rewrite E. simpl. split.
  - unfold initial_state. intros H. discriminate H.
  - rewrite lookup_singleton_eq, lookup_empty. discriminate.
Qed.

(** C9 (the response is not consulted).  [update_long_term_memory] gives
    the same result and the same state whatever the output argument is;
    and two [chat] calls whose models answer differently leave the same
    long-term dictionary. *)
Theorem output_noninterference sid input st :
  (∀ o1 o2,
     update_long_term_memory sid input o1 st =
     update_long_term_memory sid input o2 st) ∧
  (∀ answer1 answer2 : chain_input → string,
     long_term_memory (step (Chat (λ ci, Returned (answer1 ci)) input sid) st) =
     long_term_memory (step (Chat (λ ci, Returned (answer2 ci)) input sid) st)) ∧
  (∀ output f, f ∈ facts (step (Update_long_term_memory sid input output) st) sid →
     f ∈ facts st sid ∨ f = "User said: " +:+ input).
Proof.
  split; [|split].
  - intros o1 o2. by rewrite !update_long_term_memory_eq.
  - intros answer1 answer2. unfold step. rewrite !chat_eq. cbv zeta.
    by destruct (objects _ !! _) as [h|].
  - intros output f. rewrite facts_update.
    intros [H|[H _]]%retained_elem; [by left|by right].
Qed.

Lemma output_noninterference_witness :
  update_long_term_memory "user_123" "Do you remember my name?" "Yes, Alice!"
    initial_state =
  update_long_term_memory "user_123" "Do you remember my name?" "No, sorry."
    initial_state ∧
  long_term_memory
    (step (Chat (λ _, Returned "Yes, Alice!") "Do you remember my name?" "user_123")
          initial_state) =
  long_term_memory
    (step (Chat (λ _, Returned "No, sorry.") "Do you remember my name?" "user_123")
          initial_state).
Proof.
  destruct (output_noninterference "user_123" "Do you remember my name?"
              initial_state) as (Hsame & Hchat & _).
  split; [apply Hsame|].
  exact (Hchat (λ _, "Yes, Alice!") (λ _, "No, sorry.")).
Defined.

(** C10 ([get_long_term_memory] only reads).  [get_long_term_memory]
    leaves the whole state as it was; for a session without a long-term
    entry it returns the empty string and the session still has no entry.
    [get_chat_history], called for a session without a history, changes the
    state: it stores a reference to a new, empty history. *)
Theorem get_long_term_memory_read_only st sid :
  snd (get_long_term_memory sid st) = st ∧
  (long_term_memory st !! sid = None →
     get_long_term_memory sid st = (Returned "", st) ∧
     long_term_memory (snd (get_long_term_memory sid st)) !! sid = None) ∧
  (chat_store st !! sid = None →
     let st' := snd (get_chat_history sid st) in
     chat_store st' !! sid = Some (length (objects st)) ∧
     objects st' !! length (objects st) = Some (mkHistory []) ∧
     st' ≠ st).
Proof.
  split; [done|]. split.
  - intros E. rewrite get_long_term_memory_eq. unfold facts. by rewrite E.
  - intros E st'. unfold st'. rewrite get_chat_history_eq, E. simpl.
    rewrite lookup_insert_eq. split; [done|]. split.
    + rewrite lookup_app_r by lia. by rewrite Nat.sub_diag.
    + intros H. apply (f_equal (λ s, chat_store s !! sid)) in H. simpl in H.
      rewrite lookup_insert_eq, E in H. discriminate H.
Qed.

Lemma get_long_term_memory_read_only_witness :
  long_term_memory initial_state !! "user_123" = None ∧
  chat_store initial_state !! "user_123" = None ∧
  get_long_term_memory "user_123" initial_state = (Returned "", initial_state) ∧
  snd (get_chat_history "user_123" initial_state) ≠ initial_state.
Proof.
  assert (long_term_memory initial_state !! "user_123" = None) as E1 by reflexivity.
  assert (chat_store initial_state !! "user_123" = None) as E2 by reflexivity.
  destruct (get_long_term_memory_read_only initial_state "user_123")
    as (_ & Hread & Hcreate).
  split; [exact E1|]. split; [exact E2|].
  split; [exact (proj1 (Hread E1))|exact (proj2 (proj2 (Hcreate E2)))].
Defined.

(** * Further properties of the code *)

(** ** What [chat] does in one call *)

Lemma chat_outcome model input sid st :
  well_formed st →
  fst (chat model input sid st) = model (chain_input_at st input sid).
Proof.
  intros Hwf. rewrite chat_eq. cbv zeta.
  destruct (opened_history sid st Hwf) as (h & -> & Eh).
  unfold chain_input_at. rewrite Eh.
  by destruct (model _).
Qed.

Lemma chat_failure_state model input sid st e :
  well_formed st →
  model (chain_input_at st input sid) = Raised e →
  step (Chat model input sid) st = step (Get_chat_history sid) st.
Proof.
  intros Hwf Hm. unfold step at 1. rewrite chat_eq. cbv zeta.
  destruct (opened_history sid st Hwf) as (h & -> & Eh).
  unfold chain_input_at in Hm. rewrite <- Eh in Hm. by rewrite Hm.
Qed.

Lemma reachable_well_formed ops : well_formed (run ops initial_state).
Proof. apply run_well_formed, initial_state_well_formed. Qed.

(** X1 (a successful turn).  In every reachable state, when the model
    answers [response] to what [chat] passes it, [chat] returns that
    response, the session's history is the old one (empty for a new
    session) followed by the human message and then the AI message, and
    the session's facts are the old ones updated with the input alone. *)
Theorem chat_success ops model input sid response :
  let st := run ops initial_state in
  model (chain_input_at st input sid) = Returned response →
  let st' := step (Chat model input sid) st in
  fst (chat model input sid st) = Returned response ∧
  short_term st' sid =
    Some (default [] (short_term st sid)
            ++ [HumanMessage input; AIMessage response]) ∧
  long_term_memory st' !! sid = Some (retained (facts st sid) input).
Proof.
  intros st Hm st'.
  pose proof (reachable_well_formed ops) as Hwf. fold st in Hwf.
  split; [by rewrite chat_outcome|].
  pose proof (view_step (Chat model input sid) st sid Hwf) as Hv.
  rewrite decide_True in Hv by done. fold st' in Hv.
  unfold step_view in Hv. cbv zeta in Hv.
  change (default [] (view st sid).1) with (facts st sid) in Hv.
  change (default [] (view st sid).2) with (default [] (short_term st sid)) in Hv.
  change (mkChainInput input (join ". " (facts st sid))
            (default [] (short_term st sid)))
    with (chain_input_at st input sid) in Hv.
  rewrite Hm in Hv.
  split; [exact (f_equal snd Hv)|exact (f_equal fst Hv)].
Qed.

Lemma chat_success_witness :
  let model : chain := λ _, Returned "Hello, Alice!" in
  let st' := step (Chat model "Hello! My name is Alice." "user_123") initial_state in
  model (chain_input_at initial_state "Hello! My name is Alice." "user_123")
    = Returned "Hello, Alice!" ∧
  short_term st' "user_123" =
    Some [HumanMessage "Hello! My name is Alice."; AIMessage "Hello, Alice!"].
Proof.
  intros model st'. split; [reflexivity|].
  exact (proj1 (proj2 (chat_success [] model "Hello! My name is Alice."
                         "user_123" "Hello, Alice!" eq_refl))).
Defined.

(** X2 (a failed turn).  In every reachable state, when the model raises,
    [chat] raises the same exception and leaves the state that
    [get_chat_history] alone would leave: the long-term dictionary and
    every existing history are untouched, nothing of the input is
    recorded, and the session has a history, empty when it is new. *)
Theorem chat_failure ops model input sid e :
  let st := run ops initial_state in
  model (chain_input_at st input sid) = Raised e →
  let st' := step (Chat model input sid) st in
  fst (chat model input sid st) = Raised e ∧
  st' = step (Get_chat_history sid) st ∧
  long_term_memory st' = long_term_memory st ∧
  short_term st' sid = Some (default [] (short_term st sid)) ∧
  (∀ r h, objects st !! r = Some h → objects st' !! r = Some h).
Proof.
  intros st Hm st'.
  pose proof (reachable_well_formed ops) as Hwf. fold st in Hwf.
  assert (st' = step (Get_chat_history sid) st) as Est
    by (by apply (chat_failure_state model input sid st e)).
  split; [by rewrite chat_outcome|]. split; [exact Est|].
  rewrite Est. split; [|split].
  - simpl. rewrite get_chat_history_eq. by destruct (chat_store st !! sid).
  - pose proof (get_chat_history_view sid st sid Hwf) as Hv.
    rewrite decide_True in Hv by done. exact (f_equal snd Hv).
  - intros r h E. simpl. rewrite get_chat_history_eq.
    destruct (chat_store st !! sid); simpl; [done|].
    rewrite lookup_app_l; [done|]. by apply lookup_lt_Some in E.
Qed.

Lemma chat_failure_witness :
  let model : chain := λ _, Raised (ChainError "rate limit") in
  let st' := step (Chat model "Hello! My name is Alice." "user_123") initial_state in
  model (chain_input_at initial_state "Hello! My name is Alice." "user_123")
    = Raised (ChainError "rate limit") ∧
  fst (chat model "Hello! My name is Alice." "user_123" initial_state)
    = Raised (ChainError "rate limit") ∧
  long_term_memory st' = ∅ ∧
  short_term st' "user_123" = Some [].
Proof.
  intros model st'. split; [reflexivity|].
  destruct (chat_failure [] model "Hello! My name is Alice." "user_123"
              (ChainError "rate limit") eq_refl) as (Hr & _ & Hl & Hs & _).
  split; [exact Hr|]. split; [exact Hl|exact Hs].
Defined.

(** X3 (what the model is asked).  In every reachable state [chat] returns
    or raises exactly what the model returns or raises on the current
    input, the rendering of the session's facts as they were before the
    call and the session's messages as they were before the call; for a
    session seen for the first time these are the empty string and the
    empty list. *)
Theorem chat_asks_the_model ops model input sid :
  let st := run ops initial_state in
  fst (chat model input sid st) = model (chain_input_at st input sid) ∧
  ci_input (chain_input_at st input sid) = input ∧
  Returned (ci_long_term_memory (chain_input_at st input sid)) = rendered st sid ∧
  ci_history (chain_input_at st input sid) = default [] (short_term st sid) ∧
  (chat_store st !! sid = None → long_term_memory st !! sid = None →
     chain_input_at st input sid = mkChainInput input "" []).
Proof.
  intros st. split; [apply chat_outcome, reachable_well_formed|].
  split; [done|]. split; [done|]. split; [done|].
  intros Ec El. unfold chain_input_at, facts, short_term. by rewrite Ec, El.
Qed.

Lemma chat_asks_the_model_witness :
  chat_store initial_state !! "user_123" = None ∧
  long_term_memory initial_state !! "user_123" = None ∧
  chain_input_at initial_state "Hello! My name is Alice." "user_123"
    = mkChainInput "Hello! My name is Alice." "" [].
Proof.
  split; [reflexivity|]. split; [reflexivity|].
  exact (proj2 (proj2 (proj2 (proj2
           (chat_asks_the_model [] (λ _, Returned "Hello, Alice!")
              "Hello! My name is Alice." "user_123")))) eq_refl eq_refl).
Defined.

(** ** Invariants of the two stores *)

(** A property of single views that every allowed step keeps holds after
    any sequence of allowed steps. *)
Lemma run_view_invariant (allowed : op → Prop)
    (P : option (list string) * option (list BaseMessage) → Prop) :
  (∀ o v, allowed o → P v → P (step_view o v)) →
  ∀ ops st, Forall allowed ops → well_formed st →
    (∀ s, P (view st s)) → ∀ s, P (view (run ops st) s).
Proof.
  intros Hstep ops. induction ops as [|o ops IH]; intros st Hall Hwf HP; [done|].
  apply Forall_cons in Hall as [Ho Hall]. simpl.
  apply IH; [done|by apply step_well_formed|].
  intros s. rewrite view_step by done. case_decide; [|done]. by apply Hstep.
Qed.

Lemma initial_view s : view initial_state s = (None, None).
Proof. unfold view, short_term. simpl. by rewrite !lookup_empty. Qed.

Lemma step_object_count o st :
  length (objects st) = size (chat_store st) →
  length (objects (step o st)) = size (chat_store (step o st)).
Proof.
  intros Hn.
  assert (∀ sid, length (objects (step (Get_chat_history sid) st))
                 = size (chat_store (step (Get_chat_history sid) st))) as Hg.
  { intros sid. simpl. rewrite get_chat_history_eq.
    destruct (chat_store st !! sid) as [r|] eqn:E; simpl; [done|].
    rewrite length_app, map_size_insert_None by done. simpl. lia. }
  destruct o as [sid|sid i out|sid|model i sid].
  - apply Hg.
  - simpl. by rewrite update_long_term_memory_eq.
  - done.
  - unfold step. rewrite chat_eq. cbv zeta.
    destruct (objects _ !! _) as [h|]; [|apply Hg].
    destruct (model _) as [response|e]; [|apply Hg].
    simpl. rewrite length_insert. apply Hg.
Qed.

Lemma run_object_count ops st :
  length (objects st) = size (chat_store st) →
  length (objects (run ops st)) = size (chat_store (run ops st)).
Proof.
  revert st. induction ops as [|o ops IH]; intros st Hn; simpl; [done|].
  apply IH. by apply step_object_count.
Qed.

(** X4 (one history per session).  In every reachable state two different
    session ids never share a history object, every reference in
    [chat_store] points to an allocated history, and there are exactly as
    many history objects as sessions in [chat_store]. *)
Theorem one_history_per_session ops :
  let st := run ops initial_state in
  (∀ s1 s2 r, chat_store st !! s1 = Some r → chat_store st !! s2 = Some r →
              s1 = s2) ∧
  (∀ s r, chat_store st !! s = Some r → is_Some (objects st !! r)) ∧
  length (objects st) = size (chat_store st).
Proof.
  intros st. pose proof (reachable_well_formed ops) as Hwf. fold st in Hwf.
  split; [apply Hwf|]. split.
  - intros s r. by apply well_formed_ref.
  - apply run_object_count. simpl. by rewrite map_size_empty.
Qed.

Lemma one_history_per_session_witness :
  let st := run [Get_chat_history "A"; Get_chat_history "B"] initial_state in
  chat_store st !! "A" = Some 0 ∧
  is_Some (objects st !! 0) ∧
  length (objects st) = size (chat_store st).
Proof.
  intros st.
  assert (chat_store st !! "A" = Some 0) as E by (vm_compute; reflexivity).
  destruct (one_history_per_session [Get_chat_history "A"; Get_chat_history "B"])
    as (_ & Hvalid & Hcount).
  split; [exact E|]. split; [exact (Hvalid "A" 0 E)|exact Hcount].
Defined.

Lemma transcript_snoc turns input response :
  transcript turns ++ [HumanMessage input; AIMessage response]
  = transcript (turns ++ [(input, response)]).
Proof. unfold transcript. rewrite flat_map_app. simpl. done. Qed.

Lemma transcript_length turns : length (transcript turns) = 2 * length turns.
Proof. induction turns as [|t turns IH]; simpl in *; lia. Qed.

(** X5 (turn structure).  In every reachable state the history of a
    session is a sequence of whole turns, each a human message followed by
    an AI message; so it has an even number of messages. *)
Theorem history_is_transcript ops sid ms :
  short_term (run ops initial_state) sid = Some ms →
  ∃ turns, ms = transcript turns ∧ length ms = 2 * length turns.
Proof.
  intros E.
  pose proof (run_view_invariant (λ _, True)
    (λ v, ∃ turns, default [] v.2 = transcript turns)) as Hinv.
  destruct (Hinv) with (ops := ops) (st := initial_state) (s := sid)
    as [turns Ht].
  - intros o v _ [turns Ht].
    destruct o as [s|s i out|s|model i s]; simpl; eauto.
    destruct (model _) as [response|e]; simpl; [|eauto].
    exists (turns ++ [(i, response)]). by rewrite Ht, transcript_snoc.
  - by apply Forall_forall.
  - apply initial_state_well_formed.
  - intros s. rewrite initial_view. by exists [].
  - unfold view in Ht. simpl in Ht. rewrite E in Ht. simpl in Ht.
    exists turns. split; [done|]. rewrite Ht. apply transcript_length.
Qed.

Lemma history_is_transcript_witness :
  let ops := [Chat (λ _, Returned "Hello, Alice!") "Hello! My name is Alice." "user_123"] in
  short_term (run ops initial_state) "user_123" =
    Some [HumanMessage "Hello! My name is Alice."; AIMessage "Hello, Alice!"] ∧
  ∃ turns,
    [HumanMessage "Hello! My name is Alice."; AIMessage "Hello, Alice!"]
      = transcript turns ∧
    length [HumanMessage "Hello! My name is Alice."; AIMessage "Hello, Alice!"]
      = 2 * length turns.
Proof.
  intros ops.
  assert (short_term (run ops initial_state) "user_123" =
            Some [HumanMessage "Hello! My name is Alice."; AIMessage "Hello, Alice!"])
    as E by (vm_compute; reflexivity).
  split; [exact E|]. exact (history_is_transcript ops "user_123" _ E).
Defined.

(** X6 (facts are things the user said).  After operations among which
    there is no direct call of [update_long_term_memory], every fact of a
    session is "User said: " followed by the text of a human message that
    is in the history of the same session. *)
Theorem facts_are_human_turns ops sid f :
  Forall (λ o, is_direct_update o = false) ops →
  f ∈ facts (run ops initial_state) sid →
  ∃ input ms,
    f = "User said: " +:+ input ∧
    short_term (run ops initial_state) sid = Some ms ∧
    HumanMessage input ∈ ms.
Proof.
  intros Hops Hf.
  pose proof (run_view_invariant (λ o, is_direct_update o = false)
    (λ v, ∀ f, f ∈ default [] v.1 →
       ∃ input ms, f = "User said: " +:+ input ∧ v.2 = Some ms ∧
                   HumanMessage input ∈ ms)) as Hinv.
  refine (Hinv _ ops initial_state Hops initial_state_well_formed _ sid f Hf).
  - clear. intros o v Ho Hv.
    assert (∀ f, f ∈ default [] v.1 →
              ∃ input ms, f = "User said: " +:+ input ∧
                Some (default [] v.2) = Some ms ∧ HumanMessage input ∈ ms) as Hopen.
    { intros f Hf. destruct (Hv f Hf) as (input & ms & -> & E & Hin).
      exists input, ms. by rewrite E. }
    destruct o as [s|s i out|s|model i s]; simpl; [done..|].
    destruct (model _) as [response|e]; simpl; [|done].
    intros f [Hf|[-> _]]%retained_elem.
    + destruct (Hv f Hf) as (input & ms & -> & E & Hin).
      exists input, (ms ++ [HumanMessage i; AIMessage response]).
      rewrite E. simpl. split; [done|]. split; [done|].
      apply elem_of_app. by left.
    + exists i, (default [] v.2 ++ [HumanMessage i; AIMessage response]).
      split; [done|]. split; [done|].
      apply elem_of_app. right. apply list_elem_of_here.
  - intros s f0. rewrite initial_view. simpl. by intros ?%elem_of_nil.
Qed.

Lemma facts_are_human_turns_witness :
  let ops := [Chat (λ _, Returned "Hello, Alice!") "Hello! My name is Alice." "user_123"] in
  Forall (λ o, is_direct_update o = false) ops ∧
  "User said: Hello! My name is Alice." ∈ facts (run ops initial_state) "user_123" ∧
  ∃ input ms,
    "User said: Hello! My name is Alice." = "User said: " +:+ input ∧
    short_term (run ops initial_state) "user_123" = Some ms ∧
    HumanMessage input ∈ ms.
Proof.
  intros ops.
  assert (Forall (λ o, is_direct_update o = false) ops) as Hops
    by (repeat constructor).
  assert ("User said: Hello! My name is Alice."
            ∈ facts (run ops initial_state) "user_123") as Hf
    by (vm_compute; apply list_elem_of_here).
  split; [exact Hops|]. split; [exact Hf|].
  exact (facts_are_human_turns ops "user_123" _ Hops Hf).
Defined.

Lemma long_term_entry_step o st s :
  is_Some (long_term_memory st !! s) → is_Some (long_term_memory (step o st) !! s).
Proof.
  intros Hs.
  destruct (long_term_memory_step o st) as [->|[input ->]]; [done|].
  destruct (decide (op_session o = s)) as [->|Hne].
  - rewrite lookup_insert_eq. eauto.
  - by rewrite lookup_insert_ne.
Qed.

Lemma objects_length_step o st :
  length (objects st) ≤ length (objects (step o st)).
Proof.
  assert (∀ sid, length (objects st)
                 ≤ length (objects (step (Get_chat_history sid) st))) as Hg.
  { intros sid. simpl. rewrite get_chat_history_eq.
    destruct (chat_store st !! sid); simpl; [done|].
    rewrite length_app. lia. }
  destruct o as [sid|sid i out|sid|model i sid].
  - apply Hg.
  - simpl. by rewrite update_long_term_memory_eq.
  - done.
  - unfold step. rewrite chat_eq. cbv zeta.
    destruct (objects _ !! _) as [h|]; [|apply Hg].
    destruct (model _) as [response|e]; [|apply Hg].
    simpl. rewrite length_insert. apply Hg.
Qed.

(** X7 (nothing is ever removed).  From any state and through any
    sequence of operations, a session that has a history keeps it: the
    session id stays bound to the same history object, no history object
    loses a message, and so the session's messages are all still there,
    with later ones behind them.  A session that has a long-term entry
    keeps one, and the number of history objects never goes down: there is
    no expiry of sessions. *)
Theorem sessions_are_never_removed ops st :
  (∀ s r, chat_store st !! s = Some r → chat_store (run ops st) !! s = Some r) ∧
  (∀ r h, objects st !! r = Some h →
     ∃ h' more, objects (run ops st) !! r = Some h' ∧
                messages h' = messages h ++ more) ∧
  (∀ s ms, short_term st s = Some ms →
     ∃ more, short_term (run ops st) s = Some (ms ++ more)) ∧
  dom (chat_store st) ⊆ dom (chat_store (run ops st)) ∧
  dom (long_term_memory st) ⊆ dom (long_term_memory (run ops st)) ∧
  length (objects st) ≤ length (objects (run ops st)).
Proof.
  split; [intros s r; apply chat_store_run|].
  split; [intros r h; apply objects_run_extend|].
  split; [intros s ms; apply short_term_run_extend|].
  revert st. induction ops as [|o ops IH]; intros st; simpl; [done|].
  destruct (IH (step o st)) as (Hc & Hl & Hn).
  split; [|split].
  - etrans; [|exact Hc]. intros s [r E]%elem_of_dom.
    apply elem_of_dom. exists r. by apply chat_store_step.
  - etrans; [|exact Hl]. intros s Hs%elem_of_dom.
    apply elem_of_dom. by apply long_term_entry_step.
  - etrans; [|exact Hn]. apply objects_length_step.
Qed.

Lemma sessions_are_never_removed_witness :
  let st := run [Chat (λ _, Returned "Hello, Alice!") "Hello! My name is Alice." "user_123"]
                initial_state in
  let ops := [Get_chat_history "user_123";
              Chat (λ _, Returned "Yes, Alice.") "Do you remember my name?" "user_123"] in
  chat_store st !! "user_123" = Some 0 ∧
  short_term st "user_123" =
    Some [HumanMessage "Hello! My name is Alice."; AIMessage "Hello, Alice!"] ∧
  chat_store (run ops st) !! "user_123" = Some 0 ∧
  ∃ more,
    short_term (run ops st) "user_123" =
      Some ([HumanMessage "Hello! My name is Alice."; AIMessage "Hello, Alice!"]
              ++ more).
Proof.
  intros st ops.
  assert (chat_store st !! "user_123" = Some 0) as Er by (vm_compute; reflexivity).
  assert (short_term st "user_123" =
            Some [HumanMessage "Hello! My name is Alice."; AIMessage "Hello, Alice!"])
    as Es by (vm_compute; reflexivity).
  destruct (sessions_are_never_removed ops st) as (Href & _ & Hkeep & _).
  split; [exact Er|]. split; [exact Es|].
  split; [exact (Href _ _ Er)|exact (Hkeep _ _ Es)].
Defined.

(** X8 (histories only grow at the end).  In every reachable state, the
    messages a session's history holds stay where they are through any
    later operations: the later history is the earlier one followed by
    further messages. *)
Theorem history_append_only ops later_ops sid ms :
  short_term (run ops initial_state) sid = Some ms →
  ∃ more,
    short_term (run later_ops (run ops initial_state)) sid = Some (ms ++ more).
Proof.
  pose proof (reachable_well_formed ops) as Hwf.
  revert Hwf. generalize (run ops initial_state). intros st Hwf.
  revert st ms Hwf.
  induction later_ops as [|o later_ops IH]; intros st ms Hwf E; simpl.
  - exists []. by rewrite app_nil_r.
  - assert (∃ more, short_term (step o st) sid = Some (ms ++ more)) as [m1 E1].
    { pose proof (view_step o st sid Hwf) as Hv.
      apply (f_equal snd) in Hv. change ((view (step o st) sid).2)
        with (short_term (step o st) sid) in Hv. rewrite Hv.
      case_decide; [|exists []; by rewrite app_nil_r].
      destruct o as [s|s i out|s|model i s]; simpl; rewrite ?E; simpl;
        try (exists []; by rewrite app_nil_r).
      destruct (model _) as [response|e]; simpl; [eauto|].
      exists []. by rewrite app_nil_r. }
    destruct (IH (step o st) (ms ++ m1) (step_well_formed o st Hwf) E1)
      as [m2 E2].
    exists (m1 ++ m2). by rewrite (assoc_L (++)).
Qed.

Lemma history_append_only_witness :
  let ops := [Chat (λ _, Returned "Hello, Alice!") "Hello! My name is Alice." "user_123"] in
  let later := [Chat (λ _, Returned "Yes, Alice.") "Do you remember my name?" "user_123"] in
  short_term (run ops initial_state) "user_123" =
    Some [HumanMessage "Hello! My name is Alice."; AIMessage "Hello, Alice!"] ∧
  ∃ more,
    short_term (run later (run ops initial_state)) "user_123" =
      Some ([HumanMessage "Hello! My name is Alice."; AIMessage "Hello, Alice!"]
              ++ more).
Proof.
  intros ops later.
  assert (short_term (run ops initial_state) "user_123" =
            Some [HumanMessage "Hello! My name is Alice."; AIMessage "Hello, Alice!"])
    as E by (vm_compute; reflexivity).
  split; [exact E|]. exact (history_append_only ops later "user_123" _ E).
Defined.

(** X9 (operations of different sessions commute).  In every reachable
    state, two operations for different sessions can be made in either
    order: every session's facts, history messages and rendering come out
    the same. *)
Theorem independent_sessions_commute ops o1 o2 :
  op_session o1 ≠ op_session o2 →
  let st := run ops initial_state in
  ∀ s, view (step o1 (step o2 st)) s = view (step o2 (step o1 st)) s ∧
       rendered (step o1 (step o2 st)) s = rendered (step o2 (step o1 st)) s.
Proof.
  intros Hne st s.
  pose proof (reachable_well_formed ops) as Hwf. fold st in Hwf.
  assert (view (step o1 (step o2 st)) s = view (step o2 (step o1 st)) s) as Hv.
  { rewrite (view_step o1 (step o2 st)), (view_step o2 (step o1 st))
      by (by apply step_well_formed).
    rewrite (view_step o2 st), (view_step o1 st) by done.
    repeat case_decide; try done. congruence. }
  split; [exact Hv|]. by rewrite !rendered_view, Hv.
Qed.

Lemma independent_sessions_commute_witness :
  let o1 := Chat (λ _, Returned "Hello A") "A secret only A has told" "A" in
  let o2 := Update_long_term_memory "B" "Something B wants remembered" "ok" in
  op_session o1 ≠ op_session o2 ∧
  view (step o1 (step o2 initial_state)) "A"
    = view (step o2 (step o1 initial_state)) "A".
Proof.
  intros o1 o2.
  assert (op_session o1 ≠ op_session o2) as Hne by discriminate.
  split; [exact Hne|].
  exact (proj1 (independent_sessions_commute [] o1 o2 Hne "A")).
Defined.

(** ** The long-term store in more detail *)

(** X10 (at most the oldest fact is evicted).  In every reachable state an
    accepted input is stored behind the facts already held; all of them
    stay when there are fewer than five, and exactly the oldest one goes
    when there are five. *)
Theorem accepted_update_evicts_oldest ops sid input output :
  20 < String.length input →
  let st := run ops initial_state in
  facts (step (Update_long_term_memory sid input output) st) sid =
    (if length (facts st sid) =? 5 then drop 1 (facts st sid) else facts st sid)
      ++ ["User said: " +:+ input].
Proof.
  intros Hlen st.
  assert (length (facts st sid) ≤ 5) as Hc
    by apply facts_within_capacity, run_within_capacity,
         initial_state_within_capacity.
  rewrite facts_update, retained_accepted, slice_from_last5, length_app by done.
  simpl. destruct (length (facts st sid) =? 5) eqn:E.
  - apply Nat.eqb_eq in E. rewrite E. simpl.
    rewrite drop_app_le by lia. done.
  - apply Nat.eqb_neq in E.
    by replace (length (facts st sid) + 1 - 5) with 0 by lia.
Qed.

Lemma accepted_update_evicts_oldest_witness :
  20 < String.length "Do you remember my name?" ∧
  facts (step (Update_long_term_memory "user_123" "Do you remember my name?" "Yes.")
              initial_state) "user_123" =
    [] ++ ["User said: " +:+ "Do you remember my name?"].
Proof.
  assert (20 < String.length "Do you remember my name?") as Hlen by (simpl; lia).
  split; [exact Hlen|].
  exact (accepted_update_evicts_oldest [] "user_123" "Do you remember my name?"
           "Yes." Hlen).
Defined.

(** X11 (what a stored fact looks like).  In every reachable state every
    fact of every session is "User said: " followed by an input of more
    than 20 characters, so a fact has more than 31 characters. *)
Theorem stored_facts_are_accepted_inputs ops sid f :
  f ∈ facts (run ops initial_state) sid →
  ∃ input,
    f = "User said: " +:+ input ∧
    20 < String.length input ∧
    String.length f = 11 + String.length input.
Proof.
  intros Hf.
  destruct (facts_only_accepted (run ops initial_state) sid f) as (input & -> & Hlen);
    [apply run_only_accepted_facts, initial_state_only_accepted_facts|done|].
  exists input. split; [done|]. split; [done|]. simpl. done.
Qed.

Lemma stored_facts_are_accepted_inputs_witness :
  let ops := [Update_long_term_memory "user_123" "Do you remember my name?" "Yes."] in
  "User said: Do you remember my name?" ∈ facts (run ops initial_state) "user_123" ∧
  ∃ input,
    "User said: Do you remember my name?" = "User said: " +:+ input ∧
    20 < String.length input ∧
    String.length "User said: Do you remember my name?" = 11 + String.length input.
Proof.
  intros ops.
  assert ("User said: Do you remember my name?"
            ∈ facts (run ops initial_state) "user_123") as Hf
    by (vm_compute; apply list_elem_of_here).
  split; [exact Hf|].
  exact (stored_facts_are_accepted_inputs ops "user_123" _ Hf).
Defined.

Lemma string_length_app (a b : string) :
  String.length (a +:+ b) = String.length a + String.length b.
Proof. induction a as [|c a IH]; simpl; [done|]. by rewrite IH. Qed.

Lemma join_length sep l :
  String.length (join sep l) =
    sum_list (String.length <$> l) + String.length sep * (length l - 1).
Proof.
  induction l as [|x [|y l] IH].
  - simpl. lia.
  - simpl. lia.
  - change (join sep (x :: y :: l)) with (x +:+ sep +:+ join sep (y :: l)).
    rewrite !string_length_app, IH. simpl. lia.
Qed.

(** X12 (size of the rendering).  In every reachable state
    [get_long_term_memory] returns a text whose length is the total length
    of the session's facts plus two characters for each of the separators
    between them, of which there are at most four; the text is empty
    exactly when the session has no facts. *)
Theorem rendering_size ops sid :
  let st := run ops initial_state in
  ∃ text,
    get_long_term_memory sid st = (Returned text, st) ∧
    String.length text =
      sum_list (String.length <$> facts st sid) + 2 * (length (facts st sid) - 1) ∧
    length (facts st sid) - 1 ≤ 4 ∧
    (text = "" ↔ facts st sid = []).
Proof.
  intros st. exists (join ". " (facts st sid)).
  split; [apply get_long_term_memory_eq|].
  split; [by rewrite join_length|].
  assert (length (facts st sid) ≤ 5) as Hc
    by apply facts_within_capacity, run_within_capacity,
         initial_state_within_capacity.
  split; [lia|]. split.
  - intros Ht. destruct (facts st sid) as [|f l] eqn:E; [done|].
    assert (f ∈ facts st sid) as Hf by (rewrite E; apply list_elem_of_here).
    destruct (facts_only_accepted st sid f) as (input & Hfeq & _);
      [apply run_only_accepted_facts, initial_state_only_accepted_facts|done|].
    apply (f_equal String.length) in Ht. rewrite join_length in Ht.
    rewrite Hfeq in Ht. simpl in Ht. lia.
  - by intros ->.
Qed.

(** X13 (no deduplication).  From any state, an accepted input submitted
    twice in a row is stored twice: the session's two newest facts are
    both that input. *)
Theorem repeated_input_is_stored_twice st sid input o1 o2 :
  20 < String.length input →
  ∃ older,
    facts (run [Update_long_term_memory sid input o1;
                Update_long_term_memory sid input o2] st) sid =
      older ++ ["User said: " +:+ input; "User said: " +:+ input].
Proof.
  intros Hlen.
  pose proof (updates_lookup sid [(input, o1); (input, o2)] st ltac:(done)) as E.
  change (run (updates sid [(input, o1); (input, o2)]) st)
    with (run [Update_long_term_memory sid input o1;
               Update_long_term_memory sid input o2] st) in E.
  assert (new_facts [(input, o1); (input, o2)].*1
          = ["User said: " +:+ input; "User said: " +:+ input]) as En.
  { simpl. by rewrite (proj2 (Nat.ltb_lt _ _) Hlen). }
  rewrite En, slice_from_last5, length_app in E.
  rewrite drop_app_le in E by (simpl; lia).
  unfold facts at 1. rewrite E. by eexists.
Qed.

Lemma repeated_input_is_stored_twice_witness :
  20 < String.length "Do you remember my name?" ∧
  ∃ older,
    facts (run [Update_long_term_memory "user_123" "Do you remember my name?" "Yes.";
                Update_long_term_memory "user_123" "Do you remember my name?" "Yes."]
               initial_state) "user_123" =
      older ++ ["User said: " +:+ "Do you remember my name?";
                "User said: " +:+ "Do you remember my name?"].
Proof.
  assert (20 < String.length "Do you remember my name?") as Hlen by (simpl; lia).
  split; [exact Hlen|].
  exact (repeated_input_is_stored_twice initial_state "user_123"
           "Do you remember my name?" "Yes." "Yes." Hlen).
Defined.

(** ** The notebook's cells *)

Lemma for_each_print {A} (line : A → string) (l : list A) out st :
  for_each l (λ x, print (line x)) out st = (Returned (), st, out ++ (line <$> l)).
Proof.
  revert out. induction l as [|x l IH]; intros out; simpl.
  - by rewrite app_nil_r.
  - unfold cell_bind, print. rewrite IH. by rewrite <- (assoc_L (++)).
Qed.

(** X14 (reviewing a session that never chatted).  For a session without
    an entry in [chat_store] the review cell prints its first heading and
    then raises [KeyError] for the session id; nothing else is printed and
    the state is unchanged.  Facts stored for the session by direct calls
    of [update_long_term_memory] make no difference. *)
Theorem review_memory_unknown_session st sid out :
  chat_store st !! sid = None →
  review_memory sid out st =
    (Raised (KeyError sid), st, out ++ ["Conversation History:"]).
Proof.
  intros E. unfold review_memory, cell_bind, print, lift, chat_store_getitem.
  by rewrite E.
Qed.

Lemma review_memory_unknown_session_witness :
  let st := run [Update_long_term_memory "user_123" "Do you remember my name?" "Yes."]
                initial_state in
  chat_store st !! "user_123" = None ∧
  facts st "user_123" = ["User said: Do you remember my name?"] ∧
  review_memory "user_123" [] st =
    (Raised (KeyError "user_123"), st, [] ++ ["Conversation History:"]).
Proof.
  intros st.
  assert (chat_store st !! "user_123" = None) as E by (vm_compute; reflexivity).
  split; [exact E|]. split; [vm_compute; reflexivity|].
  exact (review_memory_unknown_session st "user_123" [] E).
Defined.

(** X15 (what the review cell prints).  For a session whose history holds
    the messages [ms], the review cell returns normally, leaves the state
    unchanged and prints, in this order: the heading, one line
    "type: content" for each message in conversation order, the heading of
    the long-term memory, and the rendering of the session's facts. *)
Theorem review_memory_output st sid ms out :
  short_term st sid = Some ms →
  review_memory sid out st =
    (Returned (), st,
     out ++ ["Conversation History:"] ++ (message_line <$> ms)
         ++ [newline +:+ "Long-term Memory:"; join ". " (facts st sid)]).
Proof.
  unfold short_term. intros E.
  destruct (chat_store st !! sid) as [r|] eqn:Er; [|done].
  destruct (objects st !! r) as [h|] eqn:Eh; [|done].
  injection E as <-.
  unfold review_memory, cell_bind at 1 2 3. unfold print at 1, lift at 1 2.
  unfold chat_store_getitem, get_messages. rewrite Er, Eh.
  unfold cell_bind at 1.
  rewrite (for_each_print message_line).
  unfold cell_bind, print, lift. rewrite get_long_term_memory_eq.
  by rewrite <- !(assoc_L (++)).
Qed.

Lemma review_memory_output_witness :
  let st := run [Chat (λ _, Returned "Hello, Alice!") "Hello! My name is Alice." "user_123"]
                initial_state in
  short_term st "user_123" =
    Some [HumanMessage "Hello! My name is Alice."; AIMessage "Hello, Alice!"] ∧
  review_memory "user_123" [] st =
    (Returned (), st,
     ["Conversation History:";
      "human: Hello! My name is Alice.";
      "ai: Hello, Alice!";
      newline +:+ "Long-term Memory:";
      "User said: Hello! My name is Alice."]).
Proof.
  intros st.
  assert (short_term st "user_123" =
            Some [HumanMessage "Hello! My name is Alice."; AIMessage "Hello, Alice!"])
    as E by (vm_compute; reflexivity).
  split; [exact E|].
  exact (review_memory_output st "user_123" _ [] E).
Defined.

(** X16 (the notebook's run).  Whatever the model answers, running the
    example cell and then the review cell on fresh stores prints the four
    answers, then the eight messages of the conversation in order, then
    the three accepted inputs as long-term memory.  The model is asked
    with an empty long-term memory on the first turn, with the first fact
    on the second, and with the first two facts on the third and on the
    fourth turn, "I love sunny days." not having been retained. *)
Theorem notebook_run (answer : chain_input → string) :
  let model : chain := λ ci, Returned (answer ci) in
  let i1 := "Hello! My name is Alice." in
  let i2 := "What's the weather like today?" in
  let i3 := "I love sunny days." in
  let i4 := "Do you remember my name?" in
  let m1 := "User said: Hello! My name is Alice." in
  let m2 := "User said: Hello! My name is Alice.. User said: What's the weather like today?" in
  let r1 := answer (mkChainInput i1 "" []) in
  let r2 := answer (mkChainInput i2 m1 [HumanMessage i1; AIMessage r1]) in
  let r3 := answer (mkChainInput i3 m2
                      [HumanMessage i1; AIMessage r1;
                       HumanMessage i2; AIMessage r2]) in
  let r4 := answer (mkChainInput i4 m2
                      [HumanMessage i1; AIMessage r1;
                       HumanMessage i2; AIMessage r2;
                       HumanMessage i3; AIMessage r3]) in
  let result :=
    cell_bind (example_usage model "user_123")
              (λ _, review_memory "user_123") [] initial_state in
  result.1.1 = Returned () ∧
  result.2 =
    ["AI: " +:+ r1; "AI: " +:+ r2; "AI: " +:+ r3; "AI: " +:+ r4;
     "Conversation History:";
     "human: " +:+ i1; "ai: " +:+ r1;
     "human: " +:+ i2; "ai: " +:+ r2;
     "human: " +:+ i3; "ai: " +:+ r3;
     "human: " +:+ i4; "ai: " +:+ r4;
     newline +:+ "Long-term Memory:";
     "User said: Hello! My name is Alice.. User said: What's the weather like today?. User said: Do you remember my name?"].
Proof.
  intros model i1 i2 i3 i4 m1 m2 r1 r2 r3 r4 result.
  split; vm_compute; reflexivity.
Qed.

Lemma chain_input_at_view st input s :
  chain_input_at st input s =
    mkChainInput input (join ". " (default [] (view st s).1))
                 (default [] (view st s).2).
Proof. reflexivity. Qed.

(** X17 (the model is asked nothing about other sessions).  What [chat]
    passes to the model for a session after a sequence of operations is
    what it would pass had every operation for another session been left
    out: neither the long-term memory nor the history given to the model
    carries anything of another session. *)
Theorem model_input_ignores_other_sessions ops input (A B : string) :
  A ≠ B →
  chain_input_at (run ops initial_state) input A =
  chain_input_at (run (without_session B ops) initial_state) input A.
Proof.
  intros Hne. rewrite !chain_input_at_view.
  by rewrite (run_without_session B ops initial_state initial_state
                initial_state_well_formed initial_state_well_formed
                (λ _ _, eq_refl) A Hne).
Qed.

Lemma model_input_ignores_other_sessions_witness :
  let ops := [Chat (λ _, Returned "Hello A") "A question that A has asked" "A";
              Chat (λ _, Returned "Hello B") "A secret only B has told" "B"] in
  "A" ≠ "B" ∧
  chain_input_at (run ops initial_state) "And now?" "A" =
  chain_input_at (run (without_session "B" ops) initial_state) "And now?" "A".
Proof.
  intros ops.
  assert ("A" ≠ "B") as Hne by discriminate.
  split; [exact Hne|].
  exact (model_input_ignores_other_sessions ops "And now?" "A" "B" Hne).
Defined.
